(** * DailyFlow: the task store and the focus timer of [src/app/page.tsx]

    A shallow embedding of the state handling of the [Home] component:
    the six-slot task collection, its persistence through
    [localStorage] and [JSON], and the selection / countdown controller.

    JavaScript strings are sequences of UTF-16 code units; they are
    modelled as [list N].  Values that come back from [JSON.parse] live
    in the type [json]; a [Task] is the TypeScript interface of the
    source and [task_val] is its run-time object. *)

From Stdlib Require Import ZArith NArith List Lia Bool String Ascii.
From stdpp Require Import base option list gmap.

Local Open Scope N_scope.

(** ** Strings as code units *)

Abbreviation jsstring := (list N).

(** The code units of an ASCII literal. *)
Definition js (s : string) : jsstring :=
  map N_of_ascii (list_ascii_of_string s).

(** The characters of the JSON grammar. *)
Abbreviation ch_quote := 34%N.
Abbreviation ch_backslash := 92%N.
Abbreviation ch_comma := 44%N.
Abbreviation ch_colon := 58%N.
Abbreviation ch_lbrace := 123%N.
Abbreviation ch_rbrace := 125%N.
Abbreviation ch_lbracket := 91%N.
Abbreviation ch_rbracket := 93%N.
Abbreviation ch_minus := 45%N.
Abbreviation ch_plus := 43%N.
Abbreviation ch_dot := 46%N.
Abbreviation ch_zero := 48%N.
Abbreviation ch_nine := 57%N.
Abbreviation ch_u := 117%N.

(** ** JSON values *)

(** The values [JSON.parse] can produce.  An integer literal carries
    its value (exactly: the rounding of integers beyond 2^53 is not
    modelled); a literal with a fraction or an exponent is kept as its
    text, no claim needing its floating-point value.  An object is the
    list of its own properties in creation order. *)
#[warnings="-register-all"]
Inductive json : Type :=
| JNull
| JBool (b : bool)
| JNum (n : Z)
| JDec (lit : jsstring)
| JStr (s : jsstring)
| JArr (items : list json)
| JObj (members : list (jsstring * json)).

(** ** [JSON.stringify] *)

Module Stringify.

(** The two halves of a surrogate pair. *)
Definition is_high (c : N) : bool := (55296 <=? c) && (c <=? 56319).
Definition is_low (c : N) : bool := (56320 <=? c) && (c <=? 57343).

Definition hex_digit (n : N) : N := if n <? 10 then ch_zero + n else 87 + n.

(** A backslash, [u] and four lower-case hexadecimal digits. *)
Definition unicode_escape (c : N) : jsstring :=
  [ch_backslash; ch_u;
   hex_digit (c / 4096 mod 16); hex_digit (c / 256 mod 16);
   hex_digit (c / 16 mod 16); hex_digit (c mod 16)].

(** One code unit that is not the first half of a surrogate pair:
    backspace, tab, line feed, form feed, carriage return, the quote
    and the backslash have a two-character escape; the other control
    characters and a lone surrogate are written in hexadecimal. *)
Definition quote_unit (c : N) : jsstring :=
  if c =? 8 then ch_backslash :: js "b"
  else if c =? 9 then ch_backslash :: js "t"
  else if c =? 10 then ch_backslash :: js "n"
  else if c =? 12 then ch_backslash :: js "f"
  else if c =? 13 then ch_backslash :: js "r"
  else if c =? ch_quote then [ch_backslash; ch_quote]
  else if c =? ch_backslash then [ch_backslash; ch_backslash]
  else if (c <? 32) || is_low c || is_high c then unicode_escape c
  else [c].

(** The body of a quoted string: a well-formed surrogate pair goes
    through unchanged, a lone surrogate is escaped. *)
Fixpoint quote_chars (s : jsstring) : jsstring :=
  match s with
  | [] => []
  | c :: rest =>
      if is_high c then
        match rest with
        | d :: rest' =>
            if is_low d then c :: d :: quote_chars rest'
            else unicode_escape c ++ quote_chars rest
        | [] => unicode_escape c
        end
      else quote_unit c ++ quote_chars rest
  end.

Definition quote (s : jsstring) : jsstring :=
  ch_quote :: quote_chars s ++ [ch_quote].

(** Decimal digits, most significant first. *)
Fixpoint dec_digits (fuel : nat) (n : N) (acc : jsstring) : jsstring :=
  match fuel with
  | O => acc
  | S f =>
      let acc' := (ch_zero + n mod 10) :: acc in
      if n <? 10 then acc' else dec_digits f (n / 10) acc'
  end.

Definition print_N (n : N) : jsstring :=
  dec_digits (S (N.to_nat (N.log2 n))) n [].

(** An integer as [Number::toString] writes it (below 10^21). *)
Definition print_Z (z : Z) : jsstring :=
  match z with
  | Z0 => [ch_zero]
  | Zpos p => print_N (Npos p)
  | Zneg p => ch_minus :: print_N (Npos p)
  end.

Fixpoint join_commas (parts : list jsstring) : jsstring :=
  match parts with
  | [] => []
  | [p] => p
  | p :: ps => p ++ ch_comma :: join_commas ps
  end.

(** Without indentation, as [JSON.stringify(value)] with one argument. *)
Fixpoint stringify (v : json) : jsstring :=
  match v with
  | JNull => js "null"
  | JBool true => js "true"
  | JBool false => js "false"
  | JNum n => print_Z n
  | JDec lit => lit
  | JStr s => quote s
  | JArr items =>
      ch_lbracket :: join_commas (map stringify items) ++ [ch_rbracket]
  | JObj members =>
      ch_lbrace
        :: join_commas
             (map (fun '(k, x) => quote k ++ ch_colon :: stringify x) members)
        ++ [ch_rbrace]
  end.

End Stringify.

Definition JSON_stringify : json -> jsstring := Stringify.stringify.

(** ** [JSON.parse] *)

Module Parse.

Definition is_digit (c : N) : bool := (ch_zero <=? c) && (c <=? ch_nine).

Definition hex_val (c : N) : option N :=
  if (ch_zero <=? c) && (c <=? ch_nine) then Some (c - ch_zero)
  else if (97 <=? c) && (c <=? 102) then Some (c - 87)
  else if (65 <=? c) && (c <=? 70) then Some (c - 55)
  else None.

Definition hex4 (a b c d : N) : option N :=
  x ← hex_val a; y ← hex_val b; z ← hex_val c; w ← hex_val d;
  Some (((x * 16 + y) * 16 + z) * 16 + w).

(** The character a two-character escape stands for: quote, backslash,
    slash, and the letters b, f, n, r, t. *)
Definition unescape (e : N) : option N :=
  if e =? ch_quote then Some ch_quote
  else if e =? ch_backslash then Some ch_backslash
  else if e =? 47 then Some 47
  else if e =? 98 then Some 8
  else if e =? 102 then Some 12
  else if e =? 110 then Some 10
  else if e =? 114 then Some 13
  else if e =? 116 then Some 9
  else None.

Definition cons_fst {A B} (a : A) (r : option (list A * B))
  : option (list A * B) :=
  '(l, b) ← r; Some (a :: l, b).

(** The characters of a string after its opening quote, up to and
    including the closing quote. *)
Fixpoint parse_chars (s : jsstring) : option (jsstring * jsstring) :=
  match s with
  | [] => None
  | c :: rest =>
      if c =? ch_quote then Some ([], rest)
      else if c =? ch_backslash then
        match rest with
        | [] => None
        | e :: rest' =>
            if e =? ch_u then
              match rest' with
              | h1 :: h2 :: h3 :: h4 :: rest'' =>
                  u ← hex4 h1 h2 h3 h4; cons_fst u (parse_chars rest'')
              | _ => None
              end
            else
              u ← unescape e; cons_fst u (parse_chars rest')
        end
      else if c <? 32 then None
      else cons_fst c (parse_chars rest)
  end.

(** Space, tab, line feed and carriage return. *)
Definition is_ws (c : N) : bool :=
  (c =? 32) || (c =? 9) || (c =? 10) || (c =? 13).

Fixpoint skip_ws (s : jsstring) : jsstring :=
  match s with
  | c :: rest => if is_ws c then skip_ws rest else s
  | [] => []
  end.

(** The text after the character [c], when the text starts with it. *)
Definition expect (c : N) (s : jsstring) : option jsstring :=
  match s with
  | d :: r => if d =? c then Some r else None
  | [] => None
  end.

(** The text after the word [lit], when the text starts with it. *)
Fixpoint literal (lit s : jsstring) : option jsstring :=
  match lit, s with
  | [], _ => Some s
  | c :: lit', d :: s' => if d =? c then literal lit' s' else None
  | _ :: _, [] => None
  end.

(** The longest prefix of decimal digits, and what follows it. *)
Fixpoint span_digits (s : jsstring) : jsstring * jsstring :=
  match s with
  | c :: rest =>
      if is_digit c then
        let '(ds, r) := span_digits rest in (c :: ds, r)
      else ([], s)
  | [] => ([], [])
  end.

Definition digits_value (ds : jsstring) : N :=
  fold_left (fun acc d => acc * 10 + (d - ch_zero)) ds 0.

(** A dot and digits, when present. *)
Definition parse_frac (s : jsstring) : option (jsstring * jsstring) :=
  match expect ch_dot s with
  | Some r =>
      match span_digits r with
      | ([], _) => None
      | (fs, r') => Some (ch_dot :: fs, r')
      end
  | None => Some ([], s)
  end.

(** The letter e in either case, an optional sign and digits, when
    present. *)
Definition parse_exp (s : jsstring) : option (jsstring * jsstring) :=
  match s with
  | e :: r =>
      if (e =? 101) || (e =? 69) then
        let '(sign, r1) :=
          match r with
          | g :: r0 =>
              if (g =? ch_plus) || (g =? ch_minus) then ([g], r0) else ([], r)
          | [] => ([], r)
          end in
        match span_digits r1 with
        | ([], _) => None
        | (es, r') => Some (e :: sign ++ es, r')
        end
      else Some ([], s)
  | [] => Some ([], s)
  end.

(** An optional minus, digits without a superfluous leading zero, an
    optional fraction and an optional exponent. *)
Definition parse_number (s : jsstring) : option (json * jsstring) :=
  let '(neg, s1) :=
    match expect ch_minus s with
    | Some r => (true, r)
    | None => (false, s)
    end in
  match span_digits s1 with
  | ([], _) => None
  | (d :: ds, s2) =>
      if (d =? ch_zero) && negb (bool_decide (ds = [])) then None
      else
        '(fs, s3) ← parse_frac s2;
        '(es, s4) ← parse_exp s3;
        match fs, es with
        | [], [] =>
            let n := Z.of_N (digits_value (d :: ds)) in
            Some (JNum (if neg then (- n)%Z else n), s4)
        | _, _ =>
            Some (JDec ((if neg then [ch_minus] else [])
                          ++ d :: ds ++ fs ++ es), s4)
        end
  end.

Fixpoint obj_lookup (k : jsstring) (ms : list (jsstring * json))
  : option json :=
  match ms with
  | [] => None
  | (k', x) :: ms' => if bool_decide (k = k') then Some x else obj_lookup k ms'
  end.

Definition obj_remove (k : jsstring) (ms : list (jsstring * json))
  : list (jsstring * json) :=
  filter (fun kx => k ≠ kx.1) ms.

(** A property in front of the properties that follow it in the text:
    a later duplicate of the key overrides the value and keeps the
    place of the first.  (The engine's listing of array-index keys
    before the others is not modelled; no key of a task is one.) *)
Definition obj_cons (k : jsstring) (x : json) (ms : list (jsstring * json))
  : list (jsstring * json) :=
  match obj_lookup k ms with
  | Some x' => (k, x') :: obj_remove k ms
  | None => (k, x) :: ms
  end.

(** Recursive descent.  [fuel] bounds the depth of the calls; the fuel
    [parse] gives is enough for every text that parses with any fuel
    ([JSONFacts.parse_fuel_adequate]). *)
Fixpoint parse_value (fuel : nat) (s : jsstring)
  : option (json * jsstring) :=
  match fuel with
  | O => None
  | S n =>
      let s1 := skip_ws s in
      match expect ch_lbrace s1 with
      | Some r =>
          match expect ch_rbrace (skip_ws r) with
          | Some r' => Some (JObj [], r')
          | None => '(ms, r') ← parse_members n r; Some (JObj ms, r')
          end
      | None =>
      match expect ch_lbracket s1 with
      | Some r =>
          match expect ch_rbracket (skip_ws r) with
          | Some r' => Some (JArr [], r')
          | None => '(xs, r') ← parse_elements n r; Some (JArr xs, r')
          end
      | None =>
      match expect ch_quote s1 with
      | Some r => '(str, r') ← parse_chars r; Some (JStr str, r')
      | None =>
      match literal (js "true") s1 with
      | Some r => Some (JBool true, r)
      | None =>
      match literal (js "false") s1 with
      | Some r => Some (JBool false, r)
      | None =>
      match literal (js "null") s1 with
      | Some r => Some (JNull, r)
      | None => parse_number s1
      end end end end end end
  end

with parse_elements (fuel : nat) (s : jsstring)
  : option (list json * jsstring) :=
  match fuel with
  | O => None
  | S n =>
      '(x, r) ← parse_value n s;
      match expect ch_comma (skip_ws r) with
      | Some r' => '(xs, r'') ← parse_elements n r'; Some (x :: xs, r'')
      | None => r' ← expect ch_rbracket (skip_ws r); Some ([x], r')
      end
  end

with parse_members (fuel : nat) (s : jsstring)
  : option (list (jsstring * json) * jsstring) :=
  match fuel with
  | O => None
  | S n =>
      r ← expect ch_quote (skip_ws s);
      '(k, r1) ← parse_chars r;
      r2 ← expect ch_colon (skip_ws r1);
      '(x, r3) ← parse_value n r2;
      match expect ch_comma (skip_ws r3) with
      | Some r4 => '(ms, r5) ← parse_members n r4; Some (obj_cons k x ms, r5)
      | None => r4 ← expect ch_rbrace (skip_ws r3); Some ([(k, x)], r4)
      end
  end.

(** A whole text: one value, then only white space.  [None] is the
    [SyntaxError] of the built-in. *)
Definition parse (s : jsstring) : option json :=
  '(x, r) ← parse_value (S (length s)) s;
  match skip_ws r with
  | [] => Some x
  | _ => None
  end.

(** A result that [parser] obtains with the fuel [n] consumed input,
    and is obtained with any fuel that is at least the length of the
    input consumed. *)
Definition fuel_bound {A} (parser : nat -> jsstring -> option (A * jsstring))
           (n : nat) : Prop :=
  ∀ s x r, parser n s = Some (x, r) ->
    (length r < length s)%nat ∧
    ∀ m, (length s - length r <= m)%nat -> parser m s = Some (x, r).

End Parse.

Definition JSON_parse : jsstring -> option json := Parse.parse.

(** ** Tasks *)

Record Task : Type := mkTask {
  id : Z;
  name : jsstring;
  isRGA : bool
}.

Definition STORAGE_KEY : jsstring := js "dailyflow-tasks".

(** [Array.from({ length: 6 }, (_, i) => ({ id: i + 1, ... }))] *)
Definition createDefaultTasks : list Task :=
  map (fun i : nat => {| id := Z.of_nat i + 1; name := []; isRGA := false |})
      (seq 0 6).

(** The object a [Task] is at run time, with its properties in the order
    the source writes them. *)
Definition task_val (t : Task) : json :=
  JObj [(js "id", JNum (id t)); (js "name", JStr (name t));
        (js "isRGA", JBool (isRGA t))].

Definition tasks_val (ts : list Task) : json := JArr (map task_val ts).

(** Reading a run-time value at the type [Task[]] that the source casts
    it to.  The cast itself checks nothing; a value that is not read
    here is one the declared types of the component do not describe. *)
Definition as_task (v : json) : option Task :=
  match v with
  | JObj [(k1, JNum i); (k2, JStr n); (k3, JBool b)] =>
      if bool_decide (k1 = js "id") && bool_decide (k2 = js "name")
         && bool_decide (k3 = js "isRGA")
      then Some {| id := i; name := n; isRGA := b |}
      else None
  | _ => None
  end.

Definition as_tasks (v : json) : option (list Task) :=
  match v with
  | JArr items => mapM as_task items
  | _ => None
  end.

(** ** Completions: a result or a thrown exception *)

Inductive completion (A : Type) : Type :=
| Normal (a : A)
| Throw.
Arguments Normal {A} a.
Arguments Throw {A}.

#[global] Instance completion_ret : MRet completion := fun _ a => Normal a.
#[global] Instance completion_bind : MBind completion := fun _ _ f m =>
  match m with
  | Normal a => f a
  | Throw => Throw
  end.

(** [try { body } catch {}]: an exception ends the block and is dropped.
    The body yields [Some v] when it ran [return v] and [None] when it
    reached its end. *)
Definition try_catch {A} (body : completion (option A)) : option A :=
  match body with
  | Normal r => r
  | Throw => None
  end.

(** ** The browser *)

(** What the component sees of its host: whether [window] exists (it
    does not during server rendering, and then neither does
    [localStorage]), whether the storage can be used (access throws
    when it cannot), and the stored entries. *)
Record browser : Type := mkBrowser {
  has_window : bool;
  storage_usable : bool;
  entries : gmap (list N) (list N)
}.

Definition storage_ok (b : browser) : bool :=
  has_window b && storage_usable b.

Definition getItem (b : browser) (key : jsstring)
  : completion (option jsstring) :=
  if storage_ok b then Normal (entries b !! key) else Throw.

Definition setItem (b : browser) (key value : jsstring)
  : completion browser :=
  if storage_ok b
  then Normal {| has_window := has_window b;
                 storage_usable := storage_usable b;
                 entries := <[key := value]> (entries b) |}
  else Throw.

(** [JSON.parse] as the code calls it: a malformed text throws. *)
Definition JSON_parse_call (text : jsstring) : completion json :=
  match JSON_parse text with
  | Some v => Normal v
  | None => Throw
  end.

(** [if (raw)] on a value that is a string or [null]: [null] and the
    empty string are falsy. *)
Definition truthy (raw : option jsstring) : option jsstring :=
  match raw with
  | Some (c :: text) => Some (c :: text)
  | _ => None
  end.

(** [Array.isArray(parsed) && parsed.length === 6] *)
Definition is_array_of_six (parsed : json) : bool :=
  match parsed with
  | JArr items => Nat.eqb (length items) 6
  | _ => false
  end.

(** The [try] block of [loadTasks]. *)
Definition loadTasks_body (b : browser) : completion (option json) :=
  raw ← getItem b STORAGE_KEY;
  match truthy raw with
  | Some text =>
      parsed ← JSON_parse_call text;
      if is_array_of_six parsed then mret (Some parsed) else mret None
  | None => mret None
  end.

Definition loadTasks (b : browser) : completion json :=
  if negb (has_window b) then Normal (tasks_val createDefaultTasks)
  else
    match try_catch (loadTasks_body b) with
    | Some parsed => Normal parsed
    | None => Normal (tasks_val createDefaultTasks)
    end.

(** ** Component state *)

Definition TIMER_SECONDS : Z := 25 * 60.

Record state : Type := mkState {
  tasks : list Task;
  hydrated : bool;
  activeId : option Z;
  secondsLeft : Z;
  running : bool;
  inputFocused : bool
}.

(** The first render: [useState] initial values. *)
Definition initial : state :=
  {| tasks := createDefaultTasks; hydrated := false; activeId := None;
     secondsLeft := TIMER_SECONDS; running := false; inputFocused := false |}.

Definition setTasks (f : list Task -> list Task) (s : state) : state :=
  {| tasks := f (tasks s); hydrated := hydrated s; activeId := activeId s;
     secondsLeft := secondsLeft s; running := running s;
     inputFocused := inputFocused s |}.

Definition setHydrated (h : bool) (s : state) : state :=
  {| tasks := tasks s; hydrated := h; activeId := activeId s;
     secondsLeft := secondsLeft s; running := running s;
     inputFocused := inputFocused s |}.

Definition setActiveId (a : option Z) (s : state) : state :=
  {| tasks := tasks s; hydrated := hydrated s; activeId := a;
     secondsLeft := secondsLeft s; running := running s;
     inputFocused := inputFocused s |}.

Definition setSecondsLeft (f : Z -> Z) (s : state) : state :=
  {| tasks := tasks s; hydrated := hydrated s; activeId := activeId s;
     secondsLeft := f (secondsLeft s); running := running s;
     inputFocused := inputFocused s |}.

Definition setRunning (r : bool) (s : state) : state :=
  {| tasks := tasks s; hydrated := hydrated s; activeId := activeId s;
     secondsLeft := secondsLeft s; running := r;
     inputFocused := inputFocused s |}.

Definition setInputFocused (f : bool) (s : state) : state :=
  {| tasks := tasks s; hydrated := hydrated s; activeId := activeId s;
     secondsLeft := secondsLeft s; running := running s;
     inputFocused := f |}.

(** [activeId === id] *)
Definition is_active (s : state) (i : Z) : bool :=
  match activeId s with
  | Some a => Z.eqb a i
  | None => false
  end.

Definition handleTaskClick (i : Z) (s : state) : state :=
  if is_active s i then
    setSecondsLeft (fun _ => TIMER_SECONDS) (setRunning false (setActiveId None s))
  else
    setSecondsLeft (fun _ => TIMER_SECONDS)
                   (setRunning false (setActiveId (Some i) s)).

(** [prev.map((t) => (t.id === id ? { ...t, name: value } : t))] *)
Definition rename (i : Z) (value : jsstring) (t : Task) : Task :=
  if Z.eqb (id t) i then {| id := id t; name := value; isRGA := isRGA t |}
  else t.

(** [prev.map((t) => (t.id === id ? { ...t, isRGA: !t.isRGA } : t))] *)
Definition flip (i : Z) (t : Task) : Task :=
  if Z.eqb (id t) i then {| id := id t; name := name t; isRGA := negb (isRGA t) |}
  else t.

Definition handleNameChange (i : Z) (value : jsstring) (s : state) : state :=
  setTasks (map (rename i value)) s.

Definition toggleRGA (i : Z) (s : state) : state :=
  setTasks (map (flip i)) s.

Definition handleStart (s : state) : state :=
  if Z.ltb 0 (secondsLeft s) then setRunning true s else s.

Definition handlePause (s : state) : state := setRunning false s.

(** The callback of [setInterval]: the updater given to
    [setSecondsLeft], with the [setRunning(false)] it issues. *)
Definition tick (s : state) : state :=
  if Z.leb (secondsLeft s) 1 then setSecondsLeft (fun _ => 0%Z) (setRunning false s)
  else setSecondsLeft (fun prev => (prev - 1)%Z) s.

Definition handleInputFocus (s : state) : state := setInputFocused true s.
Definition handleInputBlur (s : state) : state := setInputFocused false s.

(** The mount effect: [setTasks(loadTasks()); setHydrated(true)].  It
    has a result in this model when the loaded value reads as [Task[]]. *)
Definition mount (b : browser) (s : state) : option state :=
  match loadTasks b with
  | Normal v =>
      match as_tasks v with
      | Some ts => Some (setHydrated true (setTasks (fun _ => ts) s))
      | None => None
      end
  | Throw => None
  end.

(** The persist effect, run after a render in which [tasks] or
    [hydrated] changed. *)
Definition persist (s : state) (b : browser) : completion browser :=
  if hydrated s
  then setItem b STORAGE_KEY (JSON_stringify (tasks_val (tasks s)))
  else Normal b.

(** ** Runs *)

(** What can happen to a mounted component: the user's gestures and the
    firing of the interval.  [Tick] is not tied to [running]: a callback
    that fires late is part of the runs. *)
Inductive action : Type :=
| TaskClick (i : Z)
| NameChange (i : Z) (value : jsstring)
| ToggleRGA (i : Z)
| Start
| Pause
| Tick
| InputFocus
| InputBlur.

Definition step (s : state) (a : action) : state :=
  match a with
  | TaskClick i => handleTaskClick i s
  | NameChange i value => handleNameChange i value s
  | ToggleRGA i => toggleRGA i s
  | Start => handleStart s
  | Pause => handlePause s
  | Tick => tick s
  | InputFocus => handleInputFocus s
  | InputBlur => handleInputBlur s
  end.

Definition run (s : state) (l : list action) : state := fold_left step l s.

(** A browser whose storage holds [raw] under the key of the tasks. *)
Definition browser_with (raw : jsstring) : browser :=
  {| has_window := true; storage_usable := true;
     entries := {[ STORAGE_KEY := raw ]} |}.

(** ** Properties of collections *)

(** Six entries, ids 1 to 6 in ascending order. *)
Definition six_slots (ts : list Task) : Prop :=
  map id ts = [1; 2; 3; 4; 5; 6]%Z.

(** [after] is [before] with the entry at position [k] replaced by its
    renamed copy, everything else in place. *)
Definition renames_at (k : nat) (value : jsstring) (before after : list Task)
  : Prop :=
  ∃ t : Task,
    before !! k = Some t ∧
    after = <[k := {| id := id t; name := value; isRGA := isRGA t |}]> before.

(** [after] is [before] with the entry at position [k] replaced by its
    copy with the flag negated, everything else in place. *)
Definition flips_at (k : nat) (before after : list Task) : Prop :=
  ∃ t : Task,
    before !! k = Some t ∧
    after = <[k := {| id := id t; name := name t; isRGA := negb (isRGA t) |}]>
              before.

(** One entry, at some position, is replaced. *)
Definition renames_one (value : jsstring) (before after : list Task) : Prop :=
  ∃ k : nat, renames_at k value before after.

Definition flips_one (before after : list Task) : Prop :=
  ∃ k : nat, flips_at k before after.

(** The id prints as one decimal digit. *)
Definition digit_id (t : Task) : Prop := (0 <= id t <= 9)%Z.

(** The timer fields of a state. *)
Definition session (s : state) : option Z * Z * bool :=
  (activeId s, secondsLeft s, running s).

(** The persisted text is one that [loadTasks] does not use: there is
    none, or it is not JSON, or not an array, or an array of another
    length than six. *)
Inductive unusable : option jsstring -> Prop :=
| unusable_absent : unusable None
| unusable_syntax raw : JSON_parse raw = None -> unusable (Some raw)
| unusable_shape raw v :
    JSON_parse raw = Some v -> (∀ items, v ≠ JArr items) ->
    unusable (Some raw)
| unusable_length raw items :
    JSON_parse raw = Some (JArr items) -> length items ≠ 6%nat ->
    unusable (Some raw).

(** ** The clock text *)

(** [String.prototype.padStart(target, fill)]: a string already as
    long as [target], or an empty [fill], gives the string back;
    otherwise [fill] is repeated, cut to the missing length and put in
    front. *)
Definition padStart (target : nat) (fill s : jsstring) : jsstring :=
  if Nat.leb target (length s) then s
  else
    match fill with
    | [] => s
    | _ :: _ =>
        take (target - length s)%nat
             (concat (replicate (target - length s)%nat fill)) ++ s
    end.

(** [String(n)] for an integer [n]. *)
Definition String_of (n : Z) : jsstring := Stringify.print_Z n.

(** [Math.floor(x / 60)] is the quotient rounded down and [x % 60] the
    remainder with the sign of [x]. *)
Definition formatTime (totalSeconds : Z) : jsstring :=
  let m := (totalSeconds / 60)%Z in
  let s := Z.rem totalSeconds 60 in
  padStart 2 (js "0") (String_of m)
    ++ js ":" ++ padStart 2 (js "0") (String_of s).

(** The character of a decimal digit. *)
Definition digit_char (d : Z) : N := Z.to_N (48 + d).

(** ** What is rendered *)

(** The three border classes of a card. *)
Inductive border : Type :=
| border_yellow
| border_blue
| border_slate.

(** The panel under the active card: the clock and the [disabled]
    attributes of its two buttons. *)
Record panel : Type := mkPanel {
  clock : jsstring;
  start_disabled : bool;
  pause_disabled : bool
}.

(** One element of [tasks.map(...)]: its key, the value of the input,
    the border, whether the flag button is lit, the text of the badge
    and the panel, present for the active task only. *)
Record card : Type := mkCard {
  card_key : Z;
  card_name : jsstring;
  card_border : border;
  card_flag_lit : bool;
  card_badge : jsstring;
  card_panel : option panel
}.

Record screen : Type := mkScreen {
  cards : list card;
  done_bar : bool
}.

Definition render_card (s : state) (task : Task) : card :=
  let isActive := is_active s (id task) in
  {| card_key := id task;
     card_name := name task;
     card_border :=
       if isRGA task then border_yellow
       else if isActive then border_blue else border_slate;
     card_flag_lit := isRGA task;
     card_badge := if isActive then js "Active" else js "Tap to focus";
     card_panel :=
       if isActive
       then Some {| clock := formatTime (secondsLeft s);
                    start_disabled := running s;
                    pause_disabled := negb (running s) |}
       else None |}.

Definition render (s : state) : screen :=
  {| cards := map (render_card s) (tasks s); done_bar := inputFocused s |}.

(** The panels on the screen. *)
Definition panels (s : state) : list panel :=
  omap card_panel (cards (render s)).

(** ** Gestures *)

(** What the user can do to the rendered controls. *)
Inductive gesture : Type :=
| ClickCard (i : Z)
| TypeName (i : Z) (value : jsstring)
| ClickFlag (i : Z)
| ClickStart
| ClickPause
| FocusInput
| BlurInput.

(** The handler a gesture runs. *)
Definition gesture_action (g : gesture) : action :=
  match g with
  | ClickCard i => TaskClick i
  | TypeName i value => NameChange i value
  | ClickFlag i => ToggleRGA i
  | ClickStart => Start
  | ClickPause => Pause
  | FocusInput => InputFocus
  | BlurInput => InputBlur
  end.

Definition has_card (s : state) (i : Z) : bool :=
  existsb (fun c => Z.eqb (card_key c) i) (cards (render s)).

(** The screen offers the gesture: the card is there to be used, the
    button is on the screen and not disabled. *)
Definition offered (s : state) (g : gesture) : bool :=
  match g with
  | ClickCard i | TypeName i _ | ClickFlag i => has_card s i
  | ClickStart => existsb (fun p => negb (start_disabled p)) (panels s)
  | ClickPause => existsb (fun p => negb (pause_disabled p)) (panels s)
  | FocusInput | BlurInput => negb (bool_decide (cards (render s) = []))
  end.

(** ** The interval *)

(** The intervals this component has set and not cleared, and the id
    the host hands out next (ids are positive and not reused). *)
Record host : Type := mkHost {
  live : gset positive;
  fresh : positive
}.

Definition setInterval (h : host) : positive * host :=
  (fresh h, {| live := {[fresh h]} ∪ live h; fresh := Pos.succ (fresh h) |}).

Definition clearInterval (i : positive) (h : host) : host :=
  {| live := live h ∖ {[i]}; fresh := fresh h |}.

(** The component with what its timer effect keeps outside the state:
    [intervalRef.current], the host's intervals, and whether the last
    run of the effect returned its cleanup. *)
Record component : Type := mkComponent {
  ui : state;
  intervalRef : option positive;
  timers : host;
  cleanup_due : bool
}.

Definition set_ui (f : state -> state) (c : component) : component :=
  {| ui := f (ui c); intervalRef := intervalRef c; timers := timers c;
     cleanup_due := cleanup_due c |}.

Definition clearTimer (c : component) : component :=
  match intervalRef c with
  | Some i =>
      {| ui := ui c; intervalRef := None;
         timers := clearInterval i (timers c);
         cleanup_due := cleanup_due c |}
  | None => c
  end.

(** The body of the timer effect; [cleanup_due] records whether it
    returned [clearTimer]. *)
Definition timer_effect (c : component) : component :=
  if negb (running (ui c)) then
    let c' := clearTimer c in
    {| ui := ui c'; intervalRef := intervalRef c'; timers := timers c';
       cleanup_due := false |}
  else
    let '(i, h) := setInterval (timers c) in
    {| ui := ui c; intervalRef := Some i; timers := h; cleanup_due := true |}.

(** After a render: the effect depends on [running] (and on the stable
    [clearTimer]); when [running] changed, the cleanup of its last run
    is called, if there is one, and the body runs again. *)
Definition commit (was_running : bool) (c : component) : component :=
  if Bool.eqb was_running (running (ui c)) then c
  else timer_effect (if cleanup_due c then clearTimer c else c).

(** The component after its first render and effects, on a host whose
    next interval id is [p]. *)
Definition mounted (s0 : state) (p : positive) : component :=
  timer_effect {| ui := s0; intervalRef := None;
                  timers := {| live := ∅; fresh := p |};
                  cleanup_due := false |}.

(** The callback given to [setInterval]: the state update is [tick];
    when the updater sees one second or less it calls [clearTimer]. *)
Definition interval_callback (c : component) : component :=
  set_ui tick (if Z.leb (secondsLeft (ui c)) 1 then clearTimer c else c).

(** A gesture, or the host firing the interval [i]; an interval that is
    not live does not fire. *)
Inductive event : Type :=
| User (g : gesture)
| Fire (i : positive).

Definition cstep (c : component) (e : event) : component :=
  match e with
  | User g =>
      commit (running (ui c)) (set_ui (fun s => step s (gesture_action g)) c)
  | Fire i =>
      if bool_decide (i ∈ live (timers c))
      then commit (running (ui c)) (interval_callback c)
      else c
  end.

Definition crun (c : component) (l : list event) : component :=
  fold_left cstep l c.

(** Events as they reach the component through the screen: a gesture
    the screen does not offer does nothing. *)
Definition ui_step (c : component) (e : event) : component :=
  match e with
  | User g => if offered (ui c) g then cstep c e else c
  | Fire _ => cstep c e
  end.

Definition ui_run (c : component) (l : list event) : component :=
  fold_left ui_step l c.

(** The timer is owned: while running there is exactly one live
    interval and [intervalRef] holds it; otherwise there is none. *)
Definition timer_owned (c : component) : Prop :=
  cleanup_due c = running (ui c) ∧
  if running (ui c)
  then ∃ i, intervalRef c = Some i ∧ live (timers c) = {[i]}
  else intervalRef c = None ∧ live (timers c) = ∅.

(** ** Kinds of actions *)

Definition is_click (a : action) : bool :=
  match a with TaskClick _ => true | _ => false end.

Definition is_tick (a : action) : bool :=
  match a with Tick => true | _ => false end.

(** The actions that touch the timer fields. *)
Definition timer_action (a : action) : bool :=
  match a with
  | TaskClick _ | Start | Pause | Tick => true
  | _ => false
  end.

(** The actions that touch the tasks. *)
Definition edit_action (a : action) : bool :=
  match a with
  | NameChange _ _ | ToggleRGA _ => true
  | _ => false
  end.

(** The number of [Tick]s in a list of actions. *)
Definition ticks (l : list action) : nat := length (List.filter is_tick l).

Definition no_click (l : list action) : Prop :=
  Forall (fun a => is_click a = false) l.

(** The value of the last [NameChange] for the id [i], the empty string
    when there is none. *)
Definition typed_name (i : Z) (l : list action) : jsstring :=
  fold_left (fun acc a =>
               match a with
               | NameChange j value => if Z.eqb i j then value else acc
               | _ => acc
               end) l [].

(** Whether [ToggleRGA] for the id [i] occurs an odd number of times. *)
Definition toggled (i : Z) (l : list action) : bool :=
  fold_left (fun acc a =>
               match a with
               | ToggleRGA j => if Z.eqb i j then negb acc else acc
               | _ => acc
               end) l false.

(** A task of the collection is the active one. *)
Definition has_active (s : state) : Prop :=
  ∃ i, activeId s = Some i ∧ In i (map id (tasks s)).

(** * Theorems *)

Local Open Scope Z_scope.

(** Reduce the setters and projections of [state], and nothing of the
    arithmetic under them. *)
Ltac fields :=
  unfold session, setTasks, setHydrated, setActiveId, setSecondsLeft,
    setRunning, setInputFocused in *;
  cbn [tasks hydrated activeId secondsLeft running inputFocused] in *.

(** ** The timer *)

Lemma tick_above (s : state) :
  1 < secondsLeft s ->
  tick s = setSecondsLeft (fun prev => prev - 1) s.
Proof.
  intros H. unfold tick.
  destruct (Z.leb_spec (secondsLeft s) 1) as [Hle|_]; [lia | reflexivity].
Qed.

Lemma tick_at_end (s : state) :
  secondsLeft s <= 1 ->
  tick s = setSecondsLeft (fun _ => 0) (setRunning false s).
Proof.
  intros H. unfold tick.
  destruct (Z.leb_spec (secondsLeft s) 1) as [_|Hgt]; [reflexivity | lia].
Qed.

(** [k] ticks, while more than [k] seconds remain, take [k] seconds off
    and touch nothing else. *)
Lemma ticks_countdown (k : nat) (s : state) :
  Z.of_nat k < secondsLeft s ->
  Nat.iter k tick s = setSecondsLeft (fun prev => prev - Z.of_nat k) s.
Proof.
  induction k as [|k IH]; intros Hk.
  - destruct s; unfold Nat.iter; cbn [nat_rect]; fields. f_equal. lia.
  - rewrite Nat.iter_succ. rewrite IH by lia.
    rewrite tick_above by (fields; lia).
    destruct s; fields. f_equal. lia.
Qed.

Lemma step_seconds_bounds (s : state) (a : action) :
  0 <= secondsLeft s <= 1500 -> 0 <= secondsLeft (step s a) <= 1500.
Proof.
  intros H. destruct a; cbn [step]; try assumption.
  - unfold handleTaskClick.
    destruct (is_active s i); fields; unfold TIMER_SECONDS; lia.
  - unfold handleStart. destruct (0 <? secondsLeft s); fields; assumption.
  - unfold tick. destruct (Z.leb_spec (secondsLeft s) 1); fields; lia.
Qed.

Lemma run_snoc (s : state) (l : list action) (a : action) :
  run s (l ++ [a]) = step (run s l) a.
Proof. unfold run. rewrite fold_left_app. reflexivity. Qed.

Lemma run_seconds_bounds (l : list action) :
  0 <= secondsLeft (run initial l) <= 1500.
Proof.
  induction l as [|a l IH] using rev_ind.
  - cbn. unfold TIMER_SECONDS. lia.
  - rewrite run_snoc. apply step_seconds_bounds, IH.
Qed.

(** C4: from any state, clicking a task other than the active one makes
    it active, stops the timer and puts 1500 seconds on it; clicking the
    active task leaves no task active, stops the timer and puts 1500
    seconds on it.  Tasks and the other fields are untouched. *)
Theorem handleTaskClick_select (s : state) (i : Z) :
  (activeId s ≠ Some i ->
     session (handleTaskClick i s) = (Some i, 1500, false)) ∧
  (activeId s = Some i ->
     session (handleTaskClick i s) = (None, 1500, false)) ∧
  tasks (handleTaskClick i s) = tasks s ∧
  hydrated (handleTaskClick i s) = hydrated s ∧
  inputFocused (handleTaskClick i s) = inputFocused s.
Proof.
  unfold handleTaskClick, is_active, session.
  destruct (activeId s) as [a|] eqn:Ha.
  - destruct (Z.eqb_spec a i) as [->|Hne]; cbn; repeat split; try reflexivity.
    + intros H. congruence.
    + intros H. congruence.
  - cbn. repeat split; try reflexivity. intros H. discriminate.
Qed.

Lemma handleTaskClick_select_witness :
  session (handleTaskClick 3 initial) = (Some 3, 1500, false) ∧
  session (handleTaskClick 3 (handleStart (handleTaskClick 3 initial)))
    = (None, 1500, false).
Proof.
  split.
  - apply (handleTaskClick_select initial 3). cbn. discriminate.
  - apply (handleTaskClick_select (handleStart (handleTaskClick 3 initial)) 3).
    reflexivity.
Defined.

(** C5: on a fresh selection (1500 seconds, stopped), one [start] and
    then 1500 ticks leave 0 seconds and a stopped timer; each of the
    first 1499 ticks takes one second off and leaves the timer running;
    a further [start] changes nothing. *)
Theorem full_countdown (s : state) :
  secondsLeft s = 1500 -> running s = false ->
  let s' := Nat.iter 1500 tick (handleStart s) in
  secondsLeft s' = 0 ∧ running s' = false ∧ handleStart s' = s' ∧
  activeId s' = activeId s ∧ tasks s' = tasks s ∧
  ∀ k : nat, (k < 1500)%nat ->
    secondsLeft (Nat.iter k tick (handleStart s)) = 1500 - Z.of_nat k ∧
    running (Nat.iter k tick (handleStart s)) = true.
Proof.
  intros Hsec Hrun.
  assert (Hstart : handleStart s = setRunning true s).
  { unfold handleStart. rewrite Hsec. reflexivity. }
  assert (Hk : ∀ k : nat, (k < 1500)%nat ->
            Nat.iter k tick (handleStart s)
            = setSecondsLeft (fun prev => prev - Z.of_nat k) (setRunning true s)).
  { intros k Hlt. rewrite Hstart. apply ticks_countdown. fields. lia. }
  intros s'. subst s'. rewrite Nat.iter_succ.
  rewrite (Hk 1499%nat) by lia.
  rewrite tick_at_end by (fields; lia).
  fields. repeat apply conj; try reflexivity.
  intros k Hlt. rewrite (Hk k Hlt). fields. split; [lia | reflexivity].
Qed.

Lemma full_countdown_witness :
  let s' := Nat.iter 1500 tick (handleStart (handleTaskClick 2 initial)) in
  secondsLeft s' = 0 ∧ running s' = false ∧ handleStart s' = s'.
Proof.
  destruct (full_countdown (handleTaskClick 2 initial)) as (H1 & H2 & H3 & _);
    [reflexivity | reflexivity | ].
  exact (conj H1 (conj H2 H3)).
Defined.

(** C6: the remaining time starts at 1500, every click on a task puts
    it back to 1500, [start] and [pause] leave it alone, a tick at 1 or
    at 0 makes it 0 and stops the timer, a tick above 1 takes one off;
    hence it stays within 0 and 1500 along every run from the first
    render, ticks that fire late included. *)
Theorem secondsLeft_bounds :
  secondsLeft initial = 1500 ∧
  (∀ s i, secondsLeft (handleTaskClick i s) = 1500) ∧
  (∀ s, secondsLeft (handleStart s) = secondsLeft s) ∧
  (∀ s, secondsLeft (handlePause s) = secondsLeft s) ∧
  (∀ s, secondsLeft s = 1 ∨ secondsLeft s = 0 ->
        secondsLeft (tick s) = 0 ∧ running (tick s) = false) ∧
  (∀ s, 1 < secondsLeft s -> secondsLeft (tick s) = secondsLeft s - 1) ∧
  (∀ s a, 0 <= secondsLeft s <= 1500 -> 0 <= secondsLeft (step s a) <= 1500) ∧
  (∀ l, 0 <= secondsLeft (run initial l) <= 1500).
Proof.
  repeat apply conj.
  - reflexivity.
  - intros s i. unfold handleTaskClick. destruct (is_active s i); reflexivity.
  - intros s. unfold handleStart. destruct (0 <? secondsLeft s); reflexivity.
  - reflexivity.
  - intros s H. rewrite tick_at_end by lia. split; reflexivity.
  - intros s H. rewrite tick_above by lia. reflexivity.
  - apply step_seconds_bounds.
  - apply run_seconds_bounds.
Qed.

Lemma secondsLeft_bounds_witness :
  secondsLeft (tick (tick (run initial [TaskClick 1; Start; Pause]))) = 1498 ∧
  secondsLeft (tick (setSecondsLeft (fun _ => 0) initial)) = 0 ∧
  0 <= secondsLeft (step (tick initial) Tick) <= 1500.
Proof.
  destruct secondsLeft_bounds as (_ & _ & _ & _ & Hend & Hdec & Hstep & Hrun).
  repeat apply conj.
  - rewrite Hdec by (vm_compute; reflexivity). reflexivity.
  - apply Hend. right. reflexivity.
  - apply Hstep. vm_compute. split; discriminate.
  - apply Hstep. vm_compute. split; discriminate.
Defined.

(** C8: with no time left [start] changes nothing at all; and [start]
    turns a stopped timer into a running one only when time is left. *)
Theorem handleStart_at_zero (s : state) :
  (secondsLeft s = 0 -> handleStart s = s) ∧
  (running s = false -> running (handleStart s) = true -> 0 < secondsLeft s) ∧
  (secondsLeft s <= 0 -> handleStart s = s).
Proof.
  unfold handleStart. repeat apply conj.
  - intros ->. reflexivity.
  - intros Hoff. destruct (Z.ltb_spec 0 (secondsLeft s)) as [Hpos|Hle].
    + intros _. exact Hpos.
    + intros Hon. congruence.
  - intros Hle. destruct (Z.ltb_spec 0 (secondsLeft s)) as [Hpos|_];
      [lia | reflexivity].
Qed.

Lemma handleStart_at_zero_witness :
  let s := setSecondsLeft (fun _ => 0) (handleTaskClick 4 initial) in
  handleStart s = s ∧ 0 < secondsLeft (handleTaskClick 4 initial).
Proof.
  split.
  - apply (handleStart_at_zero
             (setSecondsLeft (fun _ => 0) (handleTaskClick 4 initial))).
    reflexivity.
  - apply (handleStart_at_zero (handleTaskClick 4 initial)); reflexivity.
Defined.

(** C10: [start] looks at the remaining time only.  With time left it
    sets [running], whatever the selection and without touching it; in
    particular with no active task, which gives a running timer without
    a task, as the run [Start] from the first render shows. *)
Theorem handleStart_ignores_selection (s : state) :
  0 < secondsLeft s ->
  running (handleStart s) = true ∧
  activeId (handleStart s) = activeId s ∧
  secondsLeft (handleStart s) = secondsLeft s ∧
  (activeId s = None ->
     activeId (handleStart s) = None ∧ running (handleStart s) = true) ∧
  session (run initial [Start]) = (None, 1500, true).
Proof.
  intros Hpos. unfold handleStart.
  destruct (Z.ltb_spec 0 (secondsLeft s)) as [_|Hle]; [|lia].
  fields. repeat apply conj; try reflexivity.
  intros ->. split; reflexivity.
Qed.

Lemma handleStart_ignores_selection_witness :
  activeId initial = None ∧
  running (handleStart initial) = true ∧
  activeId (handleStart initial) = None.
Proof.
  destruct (handleStart_ignores_selection initial) as (Hr & Ha & _);
    [reflexivity|].
  exact (conj eq_refl (conj Hr Ha)).
Defined.

(** ** The mutators *)

Lemma rename_id (i : Z) (value : jsstring) (t : Task) :
  id (rename i value t) = id t.
Proof. unfold rename. destruct (id t =? i); reflexivity. Qed.

Lemma flip_id (i : Z) (t : Task) : id (flip i t) = id t.
Proof. unfold flip. destruct (id t =? i); reflexivity. Qed.

Lemma flip_flip (i : Z) (t : Task) : flip i (flip i t) = t.
Proof.
  unfold flip. destruct (id t =? i) eqn:E; cbn [id name isRGA].
  - rewrite E. destruct t as [n nm f]. cbn. rewrite negb_involutive. reflexivity.
  - rewrite E. reflexivity.
Qed.

Lemma map_rename_ids (i : Z) (value : jsstring) (ts : list Task) :
  map id (map (rename i value) ts) = map id ts.
Proof.
  rewrite map_map. apply map_ext. intros t. apply rename_id.
Qed.

Lemma map_flip_ids (i : Z) (ts : list Task) :
  map id (map (flip i) ts) = map id ts.
Proof.
  rewrite map_map. apply map_ext. intros t. apply flip_id.
Qed.

Lemma step_ids (s : state) (a : action) :
  map id (tasks (step s a)) = map id (tasks s).
Proof.
  destruct a; cbn [step]; try reflexivity.
  - unfold handleTaskClick. destruct (is_active s i); reflexivity.
  - apply map_rename_ids.
  - apply map_flip_ids.
  - unfold handleStart. destruct (0 <? secondsLeft s); reflexivity.
  - unfold tick. destruct (secondsLeft s <=? 1); reflexivity.
Qed.

Lemma run_ids (s : state) (l : list action) :
  map id (tasks (run s l)) = map id (tasks s).
Proof.
  revert s. induction l as [|a l IH]; intros s; [reflexivity|].
  cbn [run fold_left]. change (fold_left step l (step s a)) with (run (step s a) l).
  rewrite IH. apply step_ids.
Qed.

(** A map that changes the entries of one id only, on a list without a
    second entry of that id, is the replacement of one position. *)
Lemma map_one_position (f g : Task -> Task) (i : Z) (ts : list Task)
      (k : nat) (t : Task) :
  (∀ u, id u = i -> f u = g u) -> (∀ u, id u ≠ i -> f u = u) ->
  NoDup (map id ts) -> ts !! k = Some t -> id t = i ->
  map f ts = <[k := g t]> ts.
Proof.
  intros Hf Hother. revert k.
  induction ts as [|u ts IH]; intros k Hnd Hk Hid; [discriminate|].
  cbn [map] in Hnd. apply NoDup_cons in Hnd as [Hnotin Hnd].
  destruct k as [|k]; cbn in Hk.
  - injection Hk as ->. cbn. rewrite (Hf t Hid). f_equal.
    rewrite <- (map_id ts) at 2. apply map_ext_in. intros u Hu.
    apply Hother. intros Heq. apply Hnotin. rewrite Hid, <- Heq.
    apply list_elem_of_In. apply in_map. exact Hu.
  - cbn. rewrite (IH k Hnd Hk Hid). f_equal.
    apply Hother. intros Heq. apply Hnotin. rewrite Heq, <- Hid.
    apply list_elem_of_In. apply in_map.
    apply list_elem_of_In. apply list_elem_of_lookup. exists k. exact Hk.
Qed.

Lemma map_no_position (f : Task -> Task) (i : Z) (ts : list Task) :
  (∀ u, id u ≠ i -> f u = u) -> ¬ In i (map id ts) -> map f ts = ts.
Proof.
  intros Hother Hnotin. rewrite <- (map_id ts) at 2.
  apply map_ext_in. intros u Hu. apply Hother.
  intros Heq. apply Hnotin. rewrite <- Heq. apply in_map. exact Hu.
Qed.

Lemma six_slots_lookup (ts : list Task) (i : Z) :
  six_slots ts -> 1 <= i <= 6 ->
  ∃ t, ts !! Z.to_nat (i - 1) = Some t ∧ id t = i.
Proof.
  unfold six_slots. intros Hids Hi.
  destruct ts as [|t1 [|t2 [|t3 [|t4 [|t5 [|t6 [|t7 ts]]]]]]]; try discriminate.
  injection Hids as H1 H2 H3 H4 H5 H6.
  assert (Hcases : i = 1 ∨ i = 2 ∨ i = 3 ∨ i = 4 ∨ i = 5 ∨ i = 6) by lia.
  destruct Hcases as [->|[->|[->|[->|[->| ->]]]]]; cbn; eauto.
Qed.

Lemma six_slots_NoDup (ts : list Task) : six_slots ts -> NoDup (map id ts).
Proof.
  unfold six_slots. intros ->.
  apply (bool_decide_unpack _). vm_compute. exact I.
Qed.

Lemma six_slots_absent (ts : list Task) (i : Z) :
  six_slots ts -> ¬ (1 <= i <= 6) -> ¬ In i (map id ts).
Proof. unfold six_slots. intros -> Hi. cbn. lia. Qed.

Lemma handleNameChange_frame (i : Z) (value : jsstring) (s : state) :
  hydrated (handleNameChange i value s) = hydrated s ∧
  session (handleNameChange i value s) = session s ∧
  inputFocused (handleNameChange i value s) = inputFocused s.
Proof. repeat split. Qed.

Lemma toggleRGA_frame (i : Z) (s : state) :
  hydrated (toggleRGA i s) = hydrated s ∧
  session (toggleRGA i s) = session s ∧
  inputFocused (toggleRGA i s) = inputFocused s.
Proof. repeat split. Qed.

Lemma handleNameChange_inside (i : Z) (value : jsstring) (s : state) :
  six_slots (tasks s) -> 1 <= i <= 6 ->
  ∃ t, tasks s !! Z.to_nat (i - 1) = Some t ∧ id t = i ∧
       tasks (handleNameChange i value s)
       = <[Z.to_nat (i - 1) := {| id := id t; name := value; isRGA := isRGA t |}]>
           (tasks s).
Proof.
  intros Hsix Hi. destruct (six_slots_lookup _ _ Hsix Hi) as (t & Hk & Hid).
  exists t. repeat apply conj; try assumption.
  unfold handleNameChange. fields.
  apply (map_one_position _ (fun u => {| id := id u; name := value; isRGA := isRGA u |}) i);
    try assumption.
  - intros u Hu. unfold rename. rewrite (proj2 (Z.eqb_eq _ _) Hu). reflexivity.
  - intros u Hu. unfold rename. rewrite (proj2 (Z.eqb_neq _ _) Hu). reflexivity.
  - apply six_slots_NoDup, Hsix.
Qed.

Lemma toggleRGA_inside (i : Z) (s : state) :
  six_slots (tasks s) -> 1 <= i <= 6 ->
  ∃ t, tasks s !! Z.to_nat (i - 1) = Some t ∧ id t = i ∧
       tasks (toggleRGA i s)
       = <[Z.to_nat (i - 1) := {| id := id t; name := name t; isRGA := negb (isRGA t) |}]>
           (tasks s).
Proof.
  intros Hsix Hi. destruct (six_slots_lookup _ _ Hsix Hi) as (t & Hk & Hid).
  exists t. repeat apply conj; try assumption.
  unfold toggleRGA. fields.
  apply (map_one_position _ (fun u => {| id := id u; name := name u; isRGA := negb (isRGA u) |}) i);
    try assumption.
  - intros u Hu. unfold flip. rewrite (proj2 (Z.eqb_eq _ _) Hu). reflexivity.
  - intros u Hu. unfold flip. rewrite (proj2 (Z.eqb_neq _ _) Hu). reflexivity.
  - apply six_slots_NoDup, Hsix.
Qed.

Lemma state_eta (s : state) (ts : list Task) :
  ts = tasks s -> setTasks (fun _ => ts) s = s.
Proof. intros ->. destruct s. reflexivity. Qed.

Lemma handleNameChange_outside (i : Z) (value : jsstring) (s : state) :
  six_slots (tasks s) -> ¬ (1 <= i <= 6) -> handleNameChange i value s = s.
Proof.
  intros Hsix Hi. rewrite <- (state_eta s (tasks s) eq_refl) at 2.
  unfold handleNameChange, setTasks. f_equal.
  apply (map_no_position _ i).
  - intros u Hu. unfold rename. rewrite (proj2 (Z.eqb_neq _ _) Hu). reflexivity.
  - apply six_slots_absent; assumption.
Qed.

Lemma toggleRGA_outside (i : Z) (s : state) :
  six_slots (tasks s) -> ¬ (1 <= i <= 6) -> toggleRGA i s = s.
Proof.
  intros Hsix Hi. rewrite <- (state_eta s (tasks s) eq_refl) at 2.
  unfold toggleRGA, setTasks. f_equal.
  apply (map_no_position _ i).
  - intros u Hu. unfold flip. rewrite (proj2 (Z.eqb_neq _ _) Hu). reflexivity.
  - apply six_slots_absent; assumption.
Qed.

(** C1, as the code has it: along every run from the first render (any
    ids, any names) the collection keeps its six entries with ids 1 to
    6 in ascending order; a name edit or a toggle keeps the ids, their
    order and the number of entries of any collection; on such a
    collection, with an id from 1 to 6 it replaces the one entry of that
    id (the one at position id - 1), keeping the other fields of that
    entry and every other entry, and with any other id it changes
    nothing. *)
Theorem tasks_six_slots :
  (∀ l : list action, six_slots (tasks (run initial l))) ∧
  (∀ s i value,
      map id (tasks (handleNameChange i value s)) = map id (tasks s) ∧
      length (tasks (handleNameChange i value s)) = length (tasks s)) ∧
  (∀ s i,
      map id (tasks (toggleRGA i s)) = map id (tasks s) ∧
      length (tasks (toggleRGA i s)) = length (tasks s)) ∧
  (∀ s i value, six_slots (tasks s) -> 1 <= i <= 6 ->
      renames_at (Z.to_nat (i - 1)) value
                 (tasks s) (tasks (handleNameChange i value s)) ∧
      flips_at (Z.to_nat (i - 1)) (tasks s) (tasks (toggleRGA i s))) ∧
  (∀ s i value, six_slots (tasks s) -> ¬ (1 <= i <= 6) ->
      handleNameChange i value s = s ∧ toggleRGA i s = s).
Proof.
  repeat apply conj.
  - intros l. unfold six_slots. rewrite run_ids. reflexivity.
  - intros s i value. split.
    + apply map_rename_ids.
    + apply length_map.
  - intros s i. split.
    + apply map_flip_ids.
    + apply length_map.
  - intros s i value Hsix Hi. split.
    + destruct (handleNameChange_inside i value s Hsix Hi) as (t & Hk & _ & Heq).
      exists t. split; assumption.
    + destruct (toggleRGA_inside i s Hsix Hi) as (t & Hk & _ & Heq).
      exists t. split; assumption.
  - intros s i value Hsix Hi. split.
    + apply handleNameChange_outside; assumption.
    + apply toggleRGA_outside; assumption.
Qed.

Lemma tasks_six_slots_witness :
  renames_at 2 (js "Write report") (tasks initial)
    (tasks (handleNameChange 3 (js "Write report") initial)) ∧
  toggleRGA 0 initial = initial.
Proof.
  destruct tasks_six_slots as (_ & _ & _ & Hin & Hout).
  split.
  - apply (Hin initial 3 (js "Write report")); [reflexivity | lia].
  - apply (Hout initial 0 []); [reflexivity | lia].
Defined.

(** C1 as stated fails for an id outside 1 to 6: editing the name of
    id 7 on the first render replaces no entry; the collection is the
    one before, and none of its entries carries the new name. *)
Lemma handleNameChange_absent_id_replaces_none :
  tasks (handleNameChange 7 (js "x") initial) = tasks initial ∧
  ¬ renames_one (js "x") (tasks initial)
      (tasks (handleNameChange 7 (js "x") initial)).
Proof.
  split; [reflexivity|].
  intros (k & t & Hk & Heq).
  assert (Hlt : (k < 6)%nat).
  { apply lookup_lt_Some in Hk. exact Hk. }
  assert (Hat : tasks (handleNameChange 7 (js "x") initial) !! k
                = Some {| id := id t; name := js "x"; isRGA := isRGA t |}).
  { rewrite Heq. apply list_lookup_insert_eq. exact Hlt. }
  destruct k as [|[|[|[|[|[|k]]]]]]; try lia; vm_compute in Hat; discriminate.
Qed.

(** C9: toggling the flag of an id twice gives back the state it
    started from, for every id and every state; one toggle leaves the
    selection, the remaining time and the running flag as they were,
    keeps the id and the name of every entry, and keeps every entry of
    another id whole. *)
Theorem toggleRGA_involutive (s : state) (i : Z) :
  toggleRGA i (toggleRGA i s) = s ∧
  activeId (toggleRGA i s) = activeId s ∧
  secondsLeft (toggleRGA i s) = secondsLeft s ∧
  running (toggleRGA i s) = running s ∧
  map id (tasks (toggleRGA i s)) = map id (tasks s) ∧
  map name (tasks (toggleRGA i s)) = map name (tasks s) ∧
  (∀ (k : nat) (t : Task), tasks s !! k = Some t -> id t ≠ i ->
      tasks (toggleRGA i s) !! k = Some t).
Proof.
  repeat apply conj; try reflexivity.
  - rewrite <- (state_eta s (tasks s) eq_refl) at 2.
    unfold toggleRGA, setTasks. cbn [tasks hydrated activeId secondsLeft running inputFocused].
    f_equal. rewrite map_map. rewrite <- (map_id (tasks s)) at 2.
    apply map_ext. intros t. apply flip_flip.
  - apply map_flip_ids.
  - unfold toggleRGA. fields. rewrite map_map. apply map_ext.
    intros t. unfold flip. destruct (id t =? i); reflexivity.
  - intros k t Hk Hne. unfold toggleRGA. fields.
    rewrite list_lookup_fmap_Some. exists t. split; [|exact Hk].
    unfold flip. rewrite (proj2 (Z.eqb_neq _ _) Hne). reflexivity.
Qed.

Lemma toggleRGA_involutive_witness :
  toggleRGA 5 (toggleRGA 5 initial) = initial ∧
  tasks (toggleRGA 5 initial) !! 1%nat
  = Some {| id := 2; name := []; isRGA := false |}.
Proof.
  destruct (toggleRGA_involutive initial 5) as (Hinv & _ & _ & _ & _ & _ & Hother).
  split; [exact Hinv|].
  apply (Hother 1%nat); [reflexivity | discriminate].
Defined.

(** ** Printing and parsing JSON *)

Module JSONFacts.
Import Stringify Parse.
Local Open Scope N_scope.

(** Reduce the binds of the option monad. *)
Ltac binds := cbn [mbind option_bind mret option_ret cons_fst] in *.

Lemma hex_val_digit (n : N) : n < 16 -> hex_val (hex_digit n) = Some n.
Proof.
  intros Hn.
  assert (Hk : ∃ k : nat, (k < 16)%nat ∧ n = N.of_nat k).
  { exists (N.to_nat n). split; lia. }
  destruct Hk as (k & Hk & ->).
  do 16 (destruct k as [|k]; [reflexivity|]). lia.
Qed.

Lemma hex4_escape (c : N) :
  c < 65536 ->
  hex4 (hex_digit (c / 4096 mod 16)) (hex_digit (c / 256 mod 16))
       (hex_digit (c / 16 mod 16)) (hex_digit (c mod 16)) = Some c.
Proof.
  intros Hc. unfold hex4.
  rewrite !hex_val_digit by (apply N.mod_lt; discriminate).
  binds. f_equal.
  pose proof (N.div_mod c 16 ltac:(discriminate)) as H0.
  pose proof (N.div_mod (c / 16) 16 ltac:(discriminate)) as H1.
  pose proof (N.div_mod (c / 256) 16 ltac:(discriminate)) as H2.
  rewrite (N.Div0.div_div c 16 16) in H1.
  rewrite (N.Div0.div_div c 256 16) in H2.
  change (16 * 16) with 256 in *. change (256 * 16) with 4096 in *.
  assert (H3 : c / 4096 mod 16 = c / 4096).
  { apply N.mod_small. apply N.Div0.div_lt_upper_bound. exact Hc. }
  rewrite H3 in *. lia.
Qed.

Lemma parse_chars_unicode (a b c d : N) (r : jsstring) :
  parse_chars (ch_backslash :: ch_u :: a :: b :: c :: d :: r)
  = (u ← hex4 a b c d; cons_fst u (parse_chars r)).
Proof. reflexivity. Qed.

Lemma parse_chars_escape (c : N) (r : jsstring) :
  c < 65536 ->
  parse_chars (unicode_escape c ++ r) = cons_fst c (parse_chars r).
Proof.
  intros Hc. unfold unicode_escape. cbn [app].
  rewrite parse_chars_unicode, hex4_escape by exact Hc. reflexivity.
Qed.

Lemma parse_chars_plain (c : N) (r : jsstring) :
  c ≠ ch_quote -> c ≠ ch_backslash -> 32 <= c ->
  parse_chars (c :: r) = cons_fst c (parse_chars r).
Proof.
  intros Hq Hb H32. cbn [parse_chars].
  rewrite (proj2 (N.eqb_neq _ _) Hq), (proj2 (N.eqb_neq _ _) Hb).
  rewrite (proj2 (N.ltb_ge _ _) H32). reflexivity.
Qed.

Lemma is_high_bounds (c : N) : is_high c = true -> 55296 <= c <= 56319.
Proof. unfold is_high. rewrite andb_true_iff, !N.leb_le. tauto. Qed.

Lemma is_low_bounds (c : N) : is_low c = true -> 56320 <= c <= 57343.
Proof. unfold is_low. rewrite andb_true_iff, !N.leb_le. tauto. Qed.

(** One character of a name, printed and read back. *)
Lemma parse_quote_unit (c : N) (r : jsstring) :
  is_high c = false ->
  parse_chars (quote_unit c ++ r) = cons_fst c (parse_chars r).
Proof.
  intros Hhigh. unfold quote_unit. rewrite Hhigh, orb_false_r.
  repeat (match goal with
          | |- context [N.eqb c ?k] =>
              destruct (N.eqb_spec c k) as [->|?]; [reflexivity|]
          end).
  destruct (N.ltb_spec c 32) as [Hlt|Hge]; cbn [orb].
  - apply parse_chars_escape. lia.
  - destruct (is_low c) eqn:Hlow.
    + apply parse_chars_escape. apply is_low_bounds in Hlow. lia.
    + cbn [app]. apply parse_chars_plain; assumption.
Qed.

Lemma parse_quote_step (d : N) (s : jsstring) :
  (∀ r, parse_chars (quote_chars s ++ ch_quote :: r) = Some (s, r)) ->
  (∀ c s' r, s = c :: s' ->
             parse_chars (quote_chars s' ++ ch_quote :: r) = Some (s', r)) ->
  ∀ r, parse_chars (quote_chars (d :: s) ++ ch_quote :: r) = Some (d :: s, r).
Proof.
  intros Hs Htail r. cbn [quote_chars].
  destruct (is_high d) eqn:Hhigh.
  - pose proof (is_high_bounds d Hhigh) as Hd.
    destruct s as [|c s'].
    + rewrite parse_chars_escape by lia. reflexivity.
    + destruct (is_low c) eqn:Hlow.
      * pose proof (is_low_bounds c Hlow) as Hc.
        cbn [app]. rewrite !parse_chars_plain by lia.
        rewrite (Htail c s' r eq_refl). reflexivity.
      * rewrite <- app_assoc, parse_chars_escape by lia.
        rewrite Hs. reflexivity.
  - rewrite <- app_assoc, parse_quote_unit by exact Hhigh.
    rewrite Hs. reflexivity.
Qed.

(** The body of a quoted string reads back as the string, whatever
    its code units. *)
Lemma parse_quote_chars (s : jsstring) (r : jsstring) :
  parse_chars (quote_chars s ++ ch_quote :: r) = Some (s, r).
Proof.
  revert r.
  enough (H : (∀ r, parse_chars (quote_chars s ++ ch_quote :: r) = Some (s, r)) ∧
              (∀ d r, parse_chars (quote_chars (d :: s) ++ ch_quote :: r)
                      = Some (d :: s, r))) by apply H.
  induction s as [|c s [IH1 IH2]].
  - split; [reflexivity|].
    intros d. apply parse_quote_step; [reflexivity | discriminate].
  - split; [apply IH2|].
    intros d. apply parse_quote_step; [apply IH2|].
    intros c' s' r' [= -> ->]. apply IH1.
Qed.

Lemma quote_app (s r : jsstring) :
  quote s ++ r = ch_quote :: quote_chars s ++ ch_quote :: r.
Proof. unfold quote. cbn [app]. rewrite <- app_assoc. reflexivity. Qed.

Lemma parse_value_string (n : nat) (s r : jsstring) :
  parse_value (S n) (quote s ++ r) = Some (JStr s, r).
Proof.
  rewrite quote_app.
  change (parse_value (S n) (ch_quote :: quote_chars s ++ ch_quote :: r))
    with ('(str, r') ← parse_chars (quote_chars s ++ ch_quote :: r);
          Some (JStr str, r')).
  rewrite parse_quote_chars. reflexivity.
Qed.

Lemma parse_value_digit (n : nat) (z : Z) (r : jsstring) :
  (0 <= z <= 9)%Z ->
  parse_value (S n) (print_Z z ++ ch_comma :: r) = Some (JNum z, ch_comma :: r).
Proof.
  intros Hz.
  assert (Hk : ∃ k : nat, (k < 10)%nat ∧ z = Z.of_nat k).
  { exists (Z.to_nat z). split; lia. }
  destruct Hk as (k & Hk & ->).
  do 10 (destruct k as [|k]; [reflexivity|]). lia.
Qed.

Lemma parse_value_bool (n : nat) (b : bool) (r : jsstring) :
  parse_value (S n) (stringify (JBool b) ++ r) = Some (JBool b, r).
Proof. destruct b; reflexivity. Qed.

(** A member whose key is printed by [quote]: what is left to read
    after the colon. *)
Lemma parse_members_key (n : nat) (k s : jsstring) :
  parse_members (S n) (quote k ++ ch_colon :: s)
  = ('(x, r3) ← parse_value n s;
     match expect ch_comma (skip_ws r3) with
     | Some r4 => '(ms, r5) ← parse_members n r4; Some (obj_cons k x ms, r5)
     | None => r4 ← expect ch_rbrace (skip_ws r3); Some ([(k, x)], r4)
     end).
Proof.
  rewrite quote_app.
  change (parse_members (S n) (ch_quote :: quote_chars k ++ ch_quote :: ch_colon :: s))
    with ('(k, r1) ← parse_chars (quote_chars k ++ ch_quote :: ch_colon :: s);
          r2 ← expect ch_colon (skip_ws r1);
          '(x, r3) ← parse_value n r2;
          match expect ch_comma (skip_ws r3) with
          | Some r4 => '(ms, r5) ← parse_members n r4; Some (obj_cons k x ms, r5)
          | None => r4 ← expect ch_rbrace (skip_ws r3); Some ([(k, x)], r4)
          end).
  rewrite parse_quote_chars. reflexivity.
Qed.

Lemma parse_members_last (n : nat) (k s r : jsstring) (x : json) :
  parse_value n s = Some (x, ch_rbrace :: r) ->
  parse_members (S n) (quote k ++ ch_colon :: s) = Some ([(k, x)], r).
Proof. intros H. rewrite parse_members_key, H. reflexivity. Qed.

Lemma parse_members_more (n : nat) (k s s' r : jsstring) (x : json)
      (ms : list (jsstring * json)) :
  parse_value n s = Some (x, ch_comma :: s') ->
  parse_members n s' = Some (ms, r) ->
  parse_members (S n) (quote k ++ ch_colon :: s) = Some (obj_cons k x ms, r).
Proof.
  intros H H'. rewrite parse_members_key, H.
  change (('(ms0, r5) ← parse_members n s'; Some (obj_cons k x ms0, r5))
          = Some (obj_cons k x ms, r)).
  rewrite H'. reflexivity.
Qed.

Lemma parse_value_object (n : nat) (k s r : jsstring)
      (ms : list (jsstring * json)) :
  parse_members n (quote k ++ s) = Some (ms, r) ->
  parse_value (S n) (ch_lbrace :: quote k ++ s) = Some (JObj ms, r).
Proof.
  intros H.
  change (parse_value (S n) (ch_lbrace :: quote k ++ s))
    with ('(ms, r') ← parse_members n (quote k ++ s); Some (JObj ms, r')).
  rewrite H. reflexivity.
Qed.

Lemma parse_elements_last (n : nat) (s r : jsstring) (x : json) :
  parse_value n s = Some (x, ch_rbracket :: r) ->
  parse_elements (S n) s = Some ([x], r).
Proof. intros H. cbn [parse_elements]. rewrite H. reflexivity. Qed.

Lemma parse_elements_more (n : nat) (s s' r : jsstring) (x : json)
      (xs : list json) :
  parse_value n s = Some (x, ch_comma :: s') ->
  parse_elements n s' = Some (xs, r) ->
  parse_elements (S n) s = Some (x :: xs, r).
Proof.
  intros H H'. cbn [parse_elements]. rewrite H.
  change (('(xs0, r'') ← parse_elements n s'; Some (x :: xs0, r''))
          = Some (x :: xs, r)).
  rewrite H'. reflexivity.
Qed.

Lemma parse_value_array (n : nat) (s r : jsstring) (xs : list json) :
  parse_elements n (ch_lbrace :: s) = Some (xs, r) ->
  parse_value (S n) (ch_lbracket :: ch_lbrace :: s) = Some (JArr xs, r).
Proof.
  intros H.
  change (parse_value (S n) (ch_lbracket :: ch_lbrace :: s))
    with ('(xs, r') ← parse_elements n (ch_lbrace :: s); Some (JArr xs, r')).
  rewrite H. reflexivity.
Qed.

(** *** The fuel of the parser *)

Local Open Scope nat_scope.

Lemma skip_ws_length (s : jsstring) : length (skip_ws s) <= length s.
Proof.
  induction s as [|c s IH]; [reflexivity|].
  cbn [skip_ws]. destruct (is_ws c); cbn [length]; lia.
Qed.

Lemma expect_Some (c : N) (s r : jsstring) :
  expect c s = Some r -> s = c :: r.
Proof.
  destruct s as [|d s]; [discriminate|]. cbn [expect].
  destruct (N.eqb_spec d c) as [->|_]; [|discriminate].
  intros [= ->]. reflexivity.
Qed.

Lemma expect_length (c : N) (s r : jsstring) :
  expect c (skip_ws s) = Some r -> length r < length s.
Proof.
  intros H. apply expect_Some in H.
  pose proof (skip_ws_length s) as Hle. rewrite H in Hle.
  cbn [length] in Hle. lia.
Qed.

Lemma literal_length (lit s r : jsstring) :
  literal lit s = Some r -> length s = length lit + length r.
Proof.
  revert s. induction lit as [|c lit IH]; intros s H.
  - destruct s; injection H as <-; reflexivity.
  - destruct s as [|d s]; [discriminate|]. cbn [literal] in H.
    destruct (N.eqb d c); [|discriminate].
    cbn [length]. rewrite (IH s H). reflexivity.
Qed.

Lemma span_digits_length (s ds r : jsstring) :
  span_digits s = (ds, r) -> length s = length ds + length r.
Proof.
  revert ds r. induction s as [|c s IH]; intros ds r H.
  - injection H as <- <-. reflexivity.
  - cbn [span_digits] in H. destruct (is_digit c).
    + destruct (span_digits s) as [ds' r'] eqn:E. injection H as <- <-.
      cbn [length]. rewrite (IH ds' r' eq_refl). reflexivity.
    + injection H as <- <-. reflexivity.
Qed.

Lemma parse_frac_length (s fs r : jsstring) :
  parse_frac s = Some (fs, r) -> length r <= length s.
Proof.
  unfold parse_frac. destruct (expect ch_dot s) as [r0|] eqn:E.
  - apply expect_Some in E. subst s.
    destruct (span_digits r0) as [ds r'] eqn:Eds.
    apply span_digits_length in Eds.
    destruct ds; [discriminate|]. intros [= <- <-]. cbn [length] in *. lia.
  - intros [= <- <-]. reflexivity.
Qed.

Lemma parse_exp_length (s es r : jsstring) :
  parse_exp s = Some (es, r) -> length r <= length s.
Proof.
  unfold parse_exp. destruct s as [|e s]; [intros [= <- <-]; reflexivity|].
  destruct ((e =? 101)%N || (e =? 69)%N); [|intros [= <- <-]; reflexivity].
  assert (Hsign : ∀ (p : jsstring * jsstring),
             p = match s with
                 | g :: r0 =>
                     if ((g =? ch_plus)%N || (g =? ch_minus)%N)
                     then ([g], r0) else ([], s)
                 | [] => ([], s)
                 end -> length p.2 <= length s).
  { intros p ->. destruct s as [|g r0]; [reflexivity|].
    destruct ((g =? ch_plus)%N || (g =? ch_minus)%N); cbn [snd length]; lia. }
  specialize (Hsign _ eq_refl). revert Hsign.
  destruct (match s with
            | g :: r0 =>
                if ((g =? ch_plus)%N || (g =? ch_minus)%N)
                then ([g], r0) else ([], s)
            | [] => ([], s)
            end) as [sign r1].
  cbn [snd]. intros Hsign.
  destruct (span_digits r1) as [ds r'] eqn:Eds.
  apply span_digits_length in Eds.
  destruct ds; [discriminate|]. intros [= <- <-]. cbn [length] in *. lia.
Qed.

Lemma parse_number_length (s r : jsstring) (x : json) :
  parse_number s = Some (x, r) -> length r < length s.
Proof.
  unfold parse_number.
  assert (Hs1 : ∀ p : bool * jsstring,
             p = match expect ch_minus s with
                 | Some r0 => (true, r0)
                 | None => (false, s)
                 end -> length p.2 <= length s).
  { intros p ->. destruct (expect ch_minus s) as [r0|] eqn:E; [|reflexivity].
    apply expect_Some in E. subst s. cbn [snd length]. lia. }
  specialize (Hs1 _ eq_refl). revert Hs1.
  destruct (match expect ch_minus s with
            | Some r0 => (true, r0)
            | None => (false, s)
            end) as [neg s1].
  cbn [snd]. intros Hs1.
  destruct (span_digits s1) as [ds s2] eqn:Eds.
  apply span_digits_length in Eds.
  destruct ds as [|d ds]; [discriminate|].
  destruct ((d =? ch_zero)%N && negb (bool_decide (ds = []))); [discriminate|].
  destruct (parse_frac s2) as [[fs s3]|] eqn:Efs; [|discriminate].
  apply parse_frac_length in Efs. binds.
  destruct (parse_exp s3) as [[es s4]|] eqn:Ees; [|discriminate].
  apply parse_exp_length in Ees.
  binds. cbn [length] in Eds.
  destruct fs, es; intros [= <- <-]; lia.
Qed.

Lemma cons_fst_Some {A B} (a : A) (o : option (list A * B)) (l : list A) (b : B) :
  cons_fst a o = Some (l, b) -> ∃ l', o = Some (l', b) ∧ l = a :: l'.
Proof.
  destruct o as [[l' b']|]; [|discriminate].
  intros [= <- <-]. eauto.
Qed.

Lemma parse_chars_length (s k r : jsstring) :
  parse_chars s = Some (k, r) -> length r < length s.
Proof.
  remember (length s) as n eqn:Hn.
  assert (Hle : length s <= n) by lia. clear Hn.
  revert s k r Hle.
  induction n as [|n IH]; intros s k r Hle H.
  - destruct s; [discriminate | cbn [length] in Hle; lia].
  - destruct s as [|c rest]; [discriminate|].
    cbn [length] in Hle. cbn [parse_chars] in H.
    destruct (N.eqb c ch_quote).
    { injection H as <- <-. cbn [length]. lia. }
    destruct (N.eqb c ch_backslash).
    + destruct rest as [|e rest']; [discriminate|].
      destruct (N.eqb e ch_u).
      * destruct rest' as [|h1 [|h2 [|h3 [|h4 rest'']]]]; try discriminate.
        destruct (hex4 h1 h2 h3 h4) as [u|]; [|discriminate]. binds.
        apply cons_fst_Some in H as (k' & H & _).
        cbn [length] in *. apply IH in H; lia.
      * destruct (unescape e) as [u|]; [|discriminate]. binds.
        apply cons_fst_Some in H as (k' & H & _).
        cbn [length] in *. apply IH in H; lia.
    + destruct (N.ltb c 32); [discriminate|].
      apply cons_fst_Some in H as (k' & H & _).
      cbn [length] in *. apply IH in H; lia.
Qed.

Lemma parse_fuel_bound (n : nat) :
  fuel_bound parse_value n ∧ fuel_bound parse_elements n ∧
  fuel_bound parse_members n.
Proof.
  induction n as [|n (IHv & IHe & IHm)].
  { repeat apply conj; intros s x r H; discriminate. }
  repeat apply conj; intros s x r H.
  - (* a value *)
    cbn [parse_value] in H. cbv zeta in H.
    pose proof (skip_ws_length s) as Hws.
    destruct (expect ch_lbrace (skip_ws s)) as [r0|] eqn:E1.
    { pose proof (expect_Some _ _ _ E1) as E1'. rewrite E1' in Hws.
      cbn [length] in Hws.
      destruct (expect ch_rbrace (skip_ws r0)) as [r'|] eqn:E2.
      - injection H as <- <-. pose proof (expect_length _ _ _ E2).
        split; [lia|]. intros [|m] Hm; [lia|].
        cbn [parse_value]. cbv zeta. rewrite E1, E2. reflexivity.
      - destruct (parse_members n r0) as [[ms r']|] eqn:E3; [|discriminate].
        binds. injection H as <- <-.
        destruct (IHm _ _ _ E3) as [Hlt Hfuel].
        split; [lia|]. intros [|m] Hm; [lia|].
        cbn [parse_value]. cbv zeta. rewrite E1, E2, (Hfuel m) by lia.
        reflexivity. }
    destruct (expect ch_lbracket (skip_ws s)) as [r0|] eqn:E2.
    { pose proof (expect_Some _ _ _ E2) as E2'. rewrite E2' in Hws.
      cbn [length] in Hws.
      destruct (expect ch_rbracket (skip_ws r0)) as [r'|] eqn:E3.
      - injection H as <- <-. pose proof (expect_length _ _ _ E3).
        split; [lia|]. intros [|m] Hm; [lia|].
        cbn [parse_value]. cbv zeta. rewrite E1, E2, E3. reflexivity.
      - destruct (parse_elements n r0) as [[xs r']|] eqn:E4; [|discriminate].
        binds. injection H as <- <-.
        destruct (IHe _ _ _ E4) as [Hlt Hfuel].
        split; [lia|]. intros [|m] Hm; [lia|].
        cbn [parse_value]. cbv zeta. rewrite E1, E2, E3, (Hfuel m) by lia.
        reflexivity. }
    destruct (expect ch_quote (skip_ws s)) as [r0|] eqn:E3.
    { pose proof (expect_Some _ _ _ E3) as E3'. rewrite E3' in Hws.
      cbn [length] in Hws.
      destruct (parse_chars r0) as [[str r']|] eqn:E4; [|discriminate].
      binds. injection H as <- <-. pose proof (parse_chars_length _ _ _ E4).
      split; [lia|]. intros [|m] Hm; [lia|].
      cbn [parse_value]. cbv zeta. rewrite E1, E2, E3, E4. reflexivity. }
    destruct (literal (js "true") (skip_ws s)) as [r0|] eqn:E4.
    { injection H as <- <-. pose proof (literal_length _ _ _ E4) as Hl.
      cbn [js map list_ascii_of_string length] in Hl.
      split; [lia|]. intros [|m] Hm; [lia|].
      cbn [parse_value]. cbv zeta. rewrite E1, E2, E3, E4. reflexivity. }
    destruct (literal (js "false") (skip_ws s)) as [r0|] eqn:E5.
    { injection H as <- <-. pose proof (literal_length _ _ _ E5) as Hl.
      cbn [js map list_ascii_of_string length] in Hl.
      split; [lia|]. intros [|m] Hm; [lia|].
      cbn [parse_value]. cbv zeta. rewrite E1, E2, E3, E4, E5. reflexivity. }
    destruct (literal (js "null") (skip_ws s)) as [r0|] eqn:E6.
    { injection H as <- <-. pose proof (literal_length _ _ _ E6) as Hl.
      cbn [js map list_ascii_of_string length] in Hl.
      split; [lia|]. intros [|m] Hm; [lia|].
      cbn [parse_value]. cbv zeta. rewrite E1, E2, E3, E4, E5, E6. reflexivity. }
    pose proof (parse_number_length _ _ _ H).
    split; [lia|]. intros [|m] Hm; [lia|].
    cbn [parse_value]. cbv zeta. rewrite E1, E2, E3, E4, E5, E6. exact H.
  - (* the elements of an array *)
    cbn [parse_elements] in H.
    destruct (parse_value n s) as [[y r1]|] eqn:E1; [|discriminate].
    binds. destruct (IHv _ _ _ E1) as [Hlt1 Hfuel1].
    destruct (expect ch_comma (skip_ws r1)) as [r2|] eqn:E2.
    + pose proof (expect_length _ _ _ E2).
      destruct (parse_elements n r2) as [[xs r3]|] eqn:E3; [|discriminate].
      binds. injection H as <- <-.
      destruct (IHe _ _ _ E3) as [Hlt3 Hfuel3].
      split; [lia|]. intros [|m] Hm; [lia|].
      cbn [parse_elements]. rewrite (Hfuel1 m) by lia. binds.
      rewrite E2, (Hfuel3 m) by lia. reflexivity.
    + destruct (expect ch_rbracket (skip_ws r1)) as [r2|] eqn:E3; [|discriminate].
      binds. injection H as <- <-. pose proof (expect_length _ _ _ E3).
      split; [lia|]. intros [|m] Hm; [lia|].
      cbn [parse_elements]. rewrite (Hfuel1 m) by lia. binds.
      rewrite E2, E3. reflexivity.
  - (* the members of an object *)
    cbn [parse_members] in H.
    destruct (expect ch_quote (skip_ws s)) as [r0|] eqn:E0; [|discriminate].
    binds. pose proof (expect_length _ _ _ E0).
    destruct (parse_chars r0) as [[k r1]|] eqn:E1; [|discriminate].
    binds. pose proof (parse_chars_length _ _ _ E1).
    destruct (expect ch_colon (skip_ws r1)) as [r2|] eqn:E2; [|discriminate].
    binds. pose proof (expect_length _ _ _ E2).
    destruct (parse_value n r2) as [[y r3]|] eqn:E3; [|discriminate].
    binds. destruct (IHv _ _ _ E3) as [Hlt3 Hfuel3].
    destruct (expect ch_comma (skip_ws r3)) as [r4|] eqn:E4.
    + pose proof (expect_length _ _ _ E4).
      destruct (parse_members n r4) as [[ms r5]|] eqn:E5; [|discriminate].
      binds. injection H as <- <-.
      destruct (IHm _ _ _ E5) as [Hlt5 Hfuel5].
      split; [lia|]. intros [|m] Hm; [lia|].
      cbn [parse_members]. rewrite E0. binds. rewrite E1. binds.
      rewrite E2. binds. rewrite (Hfuel3 m) by lia. binds.
      rewrite E4, (Hfuel5 m) by lia. reflexivity.
    + destruct (expect ch_rbrace (skip_ws r3)) as [r4|] eqn:E5; [|discriminate].
      binds. injection H as <- <-. pose proof (expect_length _ _ _ E5).
      split; [lia|]. intros [|m] Hm; [lia|].
      cbn [parse_members]. rewrite E0. binds. rewrite E1. binds.
      rewrite E2. binds. rewrite (Hfuel3 m) by lia. binds.
      rewrite E4, E5. reflexivity.
Qed.

(** What any amount of fuel reads from a text, the fuel of [parse]
    reads as well: [parse] never fails for want of fuel. *)
Lemma parse_fuel_adequate (n : nat) (s r : jsstring) (x : json) :
  parse_value n s = Some (x, r) ->
  parse_value (S (length s)) s = Some (x, r).
Proof.
  intros H. destruct (parse_fuel_bound n) as (Hv & _ & _).
  destruct (Hv s x r H) as [_ Hfuel]. apply Hfuel. lia.
Qed.

Lemma parse_None_any_fuel (s : jsstring) :
  parse s = None ->
  ∀ n x r, parse_value n s = Some (x, r) -> skip_ws r ≠ [].
Proof.
  unfold parse. intros Hnone n x r H Hrest.
  rewrite (parse_fuel_adequate n s r x H) in Hnone. binds.
  rewrite Hrest in Hnone. discriminate.
Qed.

End JSONFacts.

(** ** Tasks through JSON *)

Module TaskFacts.
Import Stringify Parse JSONFacts.

Lemma stringify_task (t : Task) (r : jsstring) :
  stringify (task_val t) ++ r
  = (123 :: quote (js "id") ++ 58 :: print_Z (id t) ++ 44 ::
       quote (js "name") ++ 58 :: quote (name t) ++ 44 ::
       quote (js "isRGA") ++ 58 :: stringify (JBool (isRGA t)) ++ 125 :: r)%N.
Proof.
  unfold task_val.
  cbn [stringify map join_commas].
  repeat (rewrite <- ?app_assoc; cbn [app]).
  reflexivity.
Qed.

(** A task object reads back as itself. *)
Lemma parse_task (n : nat) (t : Task) (r : jsstring) :
  digit_id t ->
  parse_value (5 + n) (stringify (task_val t) ++ r) = Some (task_val t, r).
Proof.
  intros Hid. rewrite stringify_task.
  apply (parse_value_object (4 + n)).
  pose proof (parse_members_last (1 + n) (js "isRGA") _ r _
                (parse_value_bool n (isRGA t) (125%N :: r))) as Hflag.
  pose proof (parse_members_more (2 + n) (js "name") _ _ _ _ _
                (parse_value_string (1 + n) (name t) _) Hflag) as Hname.
  exact (parse_members_more (3 + n) (js "id") _ _ _ _ _
           (parse_value_digit (2 + n) (id t) _ Hid) Hname).
Qed.

Lemma parse_task_elements (ts : list Task) :
  ∀ (t : Task) (n : nat) (r : jsstring),
    Forall digit_id (t :: ts) ->
    parse_elements (length ts + 6 + n)
      (join_commas (map stringify (map task_val (t :: ts))) ++ 93%N :: r)
    = Some (map task_val (t :: ts), r).
Proof.
  induction ts as [|t' ts IH]; intros t n r Hall;
    apply Forall_cons in Hall as [Ht Hall].
  - cbn [map join_commas length Nat.add].
    apply (parse_elements_last (5 + n)). apply parse_task, Ht.
  - change (join_commas (map stringify (map task_val (t :: t' :: ts))))
      with (stringify (task_val t)
              ++ 44%N :: join_commas (map stringify (map task_val (t' :: ts)))).
    rewrite <- app_assoc. cbn [app length Nat.add].
    apply (parse_elements_more (length ts + 6 + n)) with
      (s' := join_commas (map stringify (map task_val (t' :: ts))) ++ 93%N :: r).
    + replace (length ts + 6 + n)%nat with (5 + (length ts + 1 + n))%nat by lia.
      apply parse_task, Ht.
    + apply IH, Hall.
Qed.

Lemma stringify_task_head (t : Task) :
  ∃ r, stringify (task_val t) = 123%N :: r.
Proof. eexists. unfold task_val. cbn [stringify]. reflexivity. Qed.

Lemma stringify_task_length (t : Task) :
  (7 <= length (stringify (task_val t)))%nat.
Proof.
  rewrite <- (app_nil_r (stringify (task_val t))), stringify_task.
  unfold quote. repeat (rewrite ?length_app, ?length_cons). lia.
Qed.

Lemma join_tasks_length (ts : list Task) :
  (7 * length ts <= length (join_commas (map stringify (map task_val ts))))%nat.
Proof.
  induction ts as [|t [|t' ts] IH].
  - cbn. lia.
  - cbn [map join_commas length]. pose proof (stringify_task_length t). lia.
  - change (join_commas (map stringify (map task_val (t :: t' :: ts))))
      with (stringify (task_val t)
              ++ 44%N :: join_commas (map stringify (map task_val (t' :: ts)))).
    rewrite length_app. cbn [length] in *.
    pose proof (stringify_task_length t). lia.
Qed.

(** A collection whose ids are single digits, printed by
    [JSON.stringify] and read by [JSON.parse], is the collection. *)
Lemma parse_stringify_tasks (ts : list Task) :
  Forall digit_id ts ->
  JSON_parse (JSON_stringify (tasks_val ts)) = Some (tasks_val ts).
Proof.
  intros Hall. destruct ts as [|t ts]; [reflexivity|].
  unfold JSON_parse, JSON_stringify, parse, tasks_val.
  cbn [stringify].
  set (body := join_commas (map stringify (map task_val (t :: ts)))).
  assert (Hlen : (7 * length (t :: ts) <= length body)%nat)
    by apply join_tasks_length.
  assert (Hhead : ∃ body', body = 123%N :: body').
  { subst body. destruct (stringify_task_head t) as (r0 & Hr0).
    destruct ts; cbn [map join_commas]; rewrite Hr0; cbn [app]; eauto. }
  destruct Hhead as (body' & Hbody).
  assert (Hparse : ∀ n, parse_elements (length ts + 6 + n) (body ++ [93%N])
                        = Some (map task_val (t :: ts), [])).
  { intros n. apply parse_task_elements, Hall. }
  cbn [length] in Hlen. rewrite length_cons, length_app. cbn [length].
  replace (S (S (length body + 1)))
    with (S (length ts + 6 + (length body - length ts - 4)))%nat by lia.
  rewrite Hbody in *. cbn [app] in *.
  rewrite (parse_value_array _ _ _ _ (Hparse _)). reflexivity.
Qed.

Lemma six_slots_digit_ids (ts : list Task) :
  six_slots ts -> Forall digit_id ts.
Proof.
  unfold six_slots, digit_id. intros Hids.
  apply Forall_forall. intros t Hin.
  assert (Hi : In (id t) (map id ts)) by (apply in_map, list_elem_of_In, Hin).
  rewrite Hids in Hi. cbn in Hi. lia.
Qed.

Lemma as_task_val (t : Task) : as_task (task_val t) = Some t.
Proof. destruct t. reflexivity. Qed.

Lemma as_tasks_val (ts : list Task) : as_tasks (tasks_val ts) = Some ts.
Proof.
  unfold as_tasks, tasks_val. induction ts as [|t ts IH]; [reflexivity|].
  cbn [map mapM]. rewrite as_task_val, IH. reflexivity.
Qed.

Lemma task_val_inj (t u : Task) : task_val t = task_val u -> t = u.
Proof. intros H. apply (f_equal as_task) in H. rewrite !as_task_val in H. congruence. Qed.

End TaskFacts.

(** ** Loading *)

Lemma JSON_parse_empty : JSON_parse [] = None.
Proof. reflexivity. Qed.

Lemma loadTasks_verbatim (b : browser) (raw : jsstring) (items : list json) :
  storage_ok b = true -> entries b !! STORAGE_KEY = Some raw ->
  JSON_parse raw = Some (JArr items) -> length items = 6%nat ->
  loadTasks b = Normal (JArr items).
Proof.
  intros Hok Hraw Hparse Hlen.
  pose proof Hok as Hwin. unfold storage_ok in Hwin.
  apply andb_true_iff in Hwin as [Hwin _].
  unfold loadTasks, loadTasks_body, getItem. rewrite Hwin, Hok, Hraw.
  destruct raw as [|c raw]; [rewrite JSON_parse_empty in Hparse; discriminate|].
  cbn [negb mbind completion_bind truthy].
  unfold JSON_parse_call. rewrite Hparse.
  cbn [mbind completion_bind is_array_of_six]. rewrite Hlen. reflexivity.
Qed.

Lemma loadTasks_unusable (b : browser) :
  unusable (entries b !! STORAGE_KEY) ->
  loadTasks b = Normal (tasks_val createDefaultTasks).
Proof.
  intros Hun. unfold loadTasks, loadTasks_body, getItem.
  destruct (has_window b); [|reflexivity].
  destruct (storage_ok b); [|reflexivity].
  cbn [negb mbind completion_bind].
  inversion Hun as [Hraw | raw Hparse Hraw | raw v Hparse Hshape Hraw
                    | raw items Hparse Hlen Hraw]; clear Hun.
  - reflexivity.
  - destruct raw; [reflexivity|]. cbn [truthy].
    unfold JSON_parse_call. rewrite Hparse. reflexivity.
  - destruct raw; [reflexivity|]. cbn [truthy].
    unfold JSON_parse_call. rewrite Hparse. cbn [mbind completion_bind].
    destruct v; try reflexivity. exfalso. apply (Hshape items). reflexivity.
  - destruct raw; [reflexivity|]. cbn [truthy].
    unfold JSON_parse_call. rewrite Hparse.
    cbn [mbind completion_bind is_array_of_six].
    rewrite (proj2 (Nat.eqb_neq _ _) Hlen). reflexivity.
Qed.

Lemma loadTasks_no_storage (b : browser) :
  storage_ok b = false ->
  loadTasks b = Normal (tasks_val createDefaultTasks).
Proof.
  intros Hok. unfold loadTasks, loadTasks_body, getItem. rewrite Hok.
  destruct (has_window b); reflexivity.
Qed.

Lemma loadTasks_returns (b : browser) : ∃ v, loadTasks b = Normal v.
Proof.
  unfold loadTasks. destruct (negb (has_window b)); [eauto|].
  destruct (try_catch (loadTasks_body b)); eauto.
Qed.

(** C3: [loadTasks] always returns and never throws.  With no persisted
    value, or one that is not JSON, or not an array, or an array of
    another length than six, it returns the six default tasks (ids 1 to
    6, empty names, flags off); so it does when the storage cannot be
    read or there is no window. *)
Theorem loadTasks_falls_back :
  (∀ b, ∃ v, loadTasks b = Normal v) ∧
  (∀ b, unusable (entries b !! STORAGE_KEY) ->
        loadTasks b = Normal (tasks_val createDefaultTasks)) ∧
  (∀ b, storage_ok b = false ->
        loadTasks b = Normal (tasks_val createDefaultTasks)) ∧
  (∀ b raw, entries b !! STORAGE_KEY = Some raw -> JSON_parse_call raw = Throw ->
        loadTasks b = Normal (tasks_val createDefaultTasks)) ∧
  createDefaultTasks
  = [mkTask 1 [] false; mkTask 2 [] false; mkTask 3 [] false;
     mkTask 4 [] false; mkTask 5 [] false; mkTask 6 [] false].
Proof.
  repeat apply conj.
  - apply loadTasks_returns.
  - apply loadTasks_unusable.
  - apply loadTasks_no_storage.
  - intros b raw Hraw Hthrow. apply loadTasks_unusable. rewrite Hraw.
    apply unusable_syntax. unfold JSON_parse_call in Hthrow.
    destruct (JSON_parse raw); [discriminate | reflexivity].
  - reflexivity.
Qed.

Lemma loadTasks_falls_back_witness :
  loadTasks (browser_with (js "{not json")) = Normal (tasks_val createDefaultTasks) ∧
  loadTasks (browser_with (js "[1,2,3]")) = Normal (tasks_val createDefaultTasks) ∧
  loadTasks (mkBrowser true false ∅) = Normal (tasks_val createDefaultTasks).
Proof.
  destruct loadTasks_falls_back as (_ & Hun & Hno & _).
  repeat apply conj.
  - apply Hun. unfold browser_with. cbn [entries].
    rewrite lookup_singleton_eq. apply unusable_syntax. vm_compute. reflexivity.
  - apply Hun. unfold browser_with. cbn [entries].
    rewrite lookup_singleton_eq.
    apply (unusable_length _ [JNum 1; JNum 2; JNum 3]).
    + vm_compute. reflexivity.
    + cbn. lia.
  - apply Hno. reflexivity.
Defined.

(** C2, as the code has it: a persisted value that is absent, not JSON,
    not an array, or an array of another length than six gives the six
    default tasks; a JSON array of exactly six elements is returned as
    it was parsed, whatever its elements are. *)
Theorem loadTasks_checks_length_only :
  (∀ b, unusable (entries b !! STORAGE_KEY) ->
        loadTasks b = Normal (tasks_val createDefaultTasks)) ∧
  (∀ b raw items,
      storage_ok b = true -> entries b !! STORAGE_KEY = Some raw ->
      JSON_parse raw = Some (JArr items) -> length items = 6%nat ->
      loadTasks b = Normal (JArr items)).
Proof.
  split.
  - apply loadTasks_unusable.
  - apply loadTasks_verbatim.
Qed.

Lemma loadTasks_checks_length_only_witness :
  loadTasks (browser_with (js "[null,1,true,[],{},-2.5e3]"))
  = Normal (JArr [JNull; JNum 1; JBool true; JArr []; JObj [];
                  JDec (js "-2.5e3")]) ∧
  loadTasks (browser_with (js "7")) = Normal (tasks_val createDefaultTasks).
Proof.
  destruct loadTasks_checks_length_only as (Hun & Hsix).
  split.
  - apply (Hsix _ (js "[null,1,true,[],{},-2.5e3]")).
    + reflexivity.
    + unfold browser_with. cbn [entries]. apply lookup_singleton_eq.
    + vm_compute. reflexivity.
    + reflexivity.
  - apply Hun. unfold browser_with. cbn [entries].
    rewrite lookup_singleton_eq. apply (unusable_shape _ (JNum 7)).
    + vm_compute. reflexivity.
    + intros items. discriminate.
Defined.

(** C2 as stated fails: a stored array of six zeros, and a stored array
    of six task records with ids 7 to 12, are both returned as they are
    and not replaced by the default tasks. *)
Lemma loadTasks_keeps_six_of_anything :
  loadTasks (browser_with (js "[0,0,0,0,0,0]")) = Normal (JArr (replicate 6 (JNum 0))) ∧
  as_tasks (JArr (replicate 6 (JNum 0))) = None ∧
  loadTasks (browser_with (js "[0,0,0,0,0,0]")) ≠ Normal (tasks_val createDefaultTasks) ∧
  (let ts := map (fun t => mkTask (id t + 6) (name t) (isRGA t)) createDefaultTasks in
   map id ts = [7; 8; 9; 10; 11; 12] ∧
   loadTasks (browser_with (JSON_stringify (tasks_val ts))) = Normal (tasks_val ts) ∧
   loadTasks (browser_with (JSON_stringify (tasks_val ts)))
   ≠ Normal (tasks_val createDefaultTasks)).
Proof.
  repeat apply conj; try (vm_compute; reflexivity).
  - vm_compute. discriminate.
  - vm_compute. discriminate.
Qed.

(** ** Persisting and loading again *)

Lemma six_slots_length (ts : list Task) : six_slots ts -> length ts = 6%nat.
Proof.
  unfold six_slots. intros H. apply (f_equal (@length Z)) in H.
  rewrite length_map in H. exact H.
Qed.

(** C7: when the persist effect has written a collection of six tasks
    with ids 1 to 6 (any names, any flags), [loadTasks] on the storage
    it left returns that collection: the text written parses back to
    the value written, the value reads as the very same tasks, and the
    mount effect of a later session puts them in its state. *)
Theorem persist_then_load (s : state) (b b' : browser) :
  six_slots (tasks s) -> hydrated s = true -> persist s b = Normal b' ->
  entries b' !! STORAGE_KEY = Some (JSON_stringify (tasks_val (tasks s))) ∧
  JSON_parse (JSON_stringify (tasks_val (tasks s))) = Some (tasks_val (tasks s)) ∧
  loadTasks b' = Normal (tasks_val (tasks s)) ∧
  as_tasks (tasks_val (tasks s)) = Some (tasks s) ∧
  (∀ s0, option_map tasks (mount b' s0) = Some (tasks s)).
Proof.
  intros Hsix Hhyd Hpersist.
  pose proof (TaskFacts.parse_stringify_tasks (tasks s)
                (TaskFacts.six_slots_digit_ids _ Hsix)) as Hparse.
  unfold persist, setItem in Hpersist. rewrite Hhyd in Hpersist.
  set (text := JSON_stringify (tasks_val (tasks s))) in *.
  destruct (storage_ok b) eqn:Hok; [|discriminate].
  assert (Hb' : b' = {| has_window := has_window b;
                        storage_usable := storage_usable b;
                        entries := <[STORAGE_KEY := text]> (entries b) |})
    by congruence.
  clear Hpersist. subst b'.
  assert (Hstored : <[STORAGE_KEY := text]> (entries b) !! STORAGE_KEY = Some text)
    by apply lookup_insert_eq.
  assert (Hload : loadTasks
            {| has_window := has_window b; storage_usable := storage_usable b;
               entries := <[STORAGE_KEY := text]> (entries b) |}
          = Normal (tasks_val (tasks s))).
  { apply (loadTasks_verbatim _ text).
    - exact Hok.
    - exact Hstored.
    - exact Hparse.
    - rewrite length_map. apply six_slots_length, Hsix. }
  repeat apply conj.
  - exact Hstored.
  - exact Hparse.
  - exact Hload.
  - apply TaskFacts.as_tasks_val.
  - intros s0. unfold mount. rewrite Hload, TaskFacts.as_tasks_val. reflexivity.
Qed.

Lemma persist_then_load_witness :
  let s := setHydrated true
             (toggleRGA 2 (handleNameChange 3 (js "Write report") initial)) in
  loadTasks
    {| has_window := true; storage_usable := true;
       entries := <[STORAGE_KEY := JSON_stringify (tasks_val (tasks s))]>
                    (entries (browser_with (js "stale"))) |}
  = Normal (tasks_val (tasks s)).
Proof.
  intros s.
  apply (persist_then_load s (browser_with (js "stale"))); reflexivity.
Defined.

(** ** The clock text *)

Lemma two_digits (z : Z) :
  0 <= z < 100 ->
  padStart 2 (js "0") (String_of z)
  = [digit_char (z / 10); digit_char (z mod 10)].
Proof.
  intros Hz.
  assert (Hk : ∃ k : nat, (k < 100)%nat ∧ z = Z.of_nat k).
  { exists (Z.to_nat z). split; lia. }
  destruct Hk as (k & Hk & ->).
  do 100 (destruct k as [|k]; [reflexivity|]). lia.
Qed.

Lemma dec_digits_length (f : nat) (n : N) (acc : jsstring) :
  (length acc <= length (Stringify.dec_digits f n acc))%nat.
Proof.
  revert n acc. induction f as [|f IH]; intros n acc; cbn [Stringify.dec_digits].
  - lia.
  - cbv zeta. destruct (n <? 10)%N.
    + cbn [length]. lia.
    + etransitivity; [|apply IH]. cbn [length]. lia.
Qed.

Lemma String_of_three (z : Z) : 100 <= z -> (3 <= length (String_of z))%nat.
Proof.
  intros Hz. destruct z as [|p|p]; try lia.
  unfold String_of, Stringify.print_Z, Stringify.print_N.
  assert (Hlog : (6 <= N.log2 (N.pos p))%N).
  { change 6%N with (N.log2 64). apply N.log2_le_mono. lia. }
  destruct (N.to_nat (N.log2 (N.pos p))) as [|[|f]] eqn:Ef; try lia.
  cbn [Stringify.dec_digits]. cbv zeta.
  destruct (N.ltb_spec (N.pos p) 10) as [Hlt|_]; [lia|].
  destruct (N.ltb_spec (N.pos p / 10) 10) as [Hlt|_].
  { pose proof (N.div_le_lower_bound (N.pos p) 10 10 ltac:(discriminate)). lia. }
  destruct (_ <? 10)%N.
  - cbn [length]. lia.
  - etransitivity; [|apply dec_digits_length]. cbn [length]. lia.
Qed.

Lemma padStart_long (target : nat) (fill s : jsstring) :
  (target <= length s)%nat -> padStart target fill s = s.
Proof.
  intros H. unfold padStart. rewrite (proj2 (Nat.leb_le _ _) H). reflexivity.
Qed.

Lemma formatTime_digits (n : Z) :
  0 <= n < 6000 ->
  formatTime n
  = [digit_char (n / 60 / 10); digit_char ((n / 60) mod 10); 58%N;
     digit_char (n mod 60 / 10); digit_char ((n mod 60) mod 10)].
Proof.
  intros Hn. unfold formatTime. cbv zeta.
  rewrite Z.rem_mod_nonneg by lia.
  rewrite !two_digits.
  - reflexivity.
  - pose proof (Z.mod_pos_bound n 60). lia.
  - split; [apply Z.div_pos; lia | apply Z.div_lt_upper_bound; lia].
Qed.

Lemma digit_char_inj (a b : Z) :
  0 <= a -> 0 <= b -> digit_char a = digit_char b -> a = b.
Proof. unfold digit_char. intros Ha Hb H. apply Z2N.inj in H; lia. Qed.

(** X1: for a whole number of seconds from 0 to 5999 the clock text is
    two digits of minutes, a colon and two digits of seconds, both
    padded with a zero. *)
Theorem formatTime_clock (n : Z) :
  0 <= n < 6000 ->
  let m := n / 60 in
  let s := n mod 60 in
  formatTime n
  = [digit_char (m / 10); digit_char (m mod 10); 58%N;
     digit_char (s / 10); digit_char (s mod 10)] ∧
  0 <= m / 10 <= 9 ∧ 0 <= m mod 10 <= 9 ∧ 0 <= s / 10 <= 5 ∧ 0 <= s mod 10 <= 9.
Proof.
  intros Hn m s. split; [apply formatTime_digits, Hn|].
  subst m s.
  pose proof (Z.mod_pos_bound n 60 ltac:(lia)).
  pose proof (Z.mod_pos_bound (n / 60) 10 ltac:(lia)).
  pose proof (Z.mod_pos_bound (n mod 60) 10 ltac:(lia)).
  assert (0 <= n / 60 < 100)
    by (split; [apply Z.div_pos; lia | apply Z.div_lt_upper_bound; lia]).
  repeat apply conj; try lia.
  - apply Z.div_pos; lia.
  - apply Z.lt_succ_r. apply Z.div_lt_upper_bound; lia.
  - apply Z.div_pos; lia.
  - apply Z.lt_succ_r. apply Z.div_lt_upper_bound; lia.
Qed.

Lemma formatTime_clock_witness :
  formatTime 125 = js "02:05" ∧ formatTime 1500 = js "25:00".
Proof.
  split.
  - destruct (formatTime_clock 125) as [H _]; [lia|]. exact H.
  - destruct (formatTime_clock 1500) as [H _]; [lia|]. exact H.
Defined.

(** X2: the clock text is exactly five characters long for 0 to 5999
    seconds and longer from 6000 seconds on: the minutes are padded to
    two characters and never cut. *)
Theorem formatTime_width (n : Z) :
  0 <= n -> (length (formatTime n) = 5%nat <-> n < 6000).
Proof.
  intros Hn. split.
  - intros Hlen. destruct (Z.lt_ge_cases n 6000) as [Hlt|Hge]; [exact Hlt|].
    exfalso. unfold formatTime in Hlen. cbv zeta in Hlen.
    assert (Hm : 100 <= n / 60) by (apply Z.div_le_lower_bound; lia).
    rewrite (padStart_long 2 _ (String_of (n / 60))) in Hlen
      by (pose proof (String_of_three _ Hm); lia).
    rewrite Z.rem_mod_nonneg in Hlen by lia.
    rewrite two_digits in Hlen by (pose proof (Z.mod_pos_bound n 60); lia).
    rewrite !length_app in Hlen. cbn [length js map list_ascii_of_string] in Hlen.
    pose proof (String_of_three _ Hm). lia.
  - intros Hlt. rewrite formatTime_digits by lia. reflexivity.
Qed.

Lemma formatTime_width_witness :
  length (formatTime 5999) = 5%nat ∧ length (formatTime 6000) ≠ 5%nat.
Proof.
  split.
  - apply (formatTime_width 5999); lia.
  - intros H. apply (formatTime_width 6000) in H; lia.
Defined.

(** X3: two different times from 0 to 5999 seconds never show the same
    clock text. *)
Theorem formatTime_injective (a b : Z) :
  0 <= a < 6000 -> 0 <= b < 6000 -> formatTime a = formatTime b -> a = b.
Proof.
  intros Ha Hb H. rewrite !formatTime_digits in H by assumption.
  injection H as H1 H2 H3 H4.
  pose proof (Z.mod_pos_bound a 60 ltac:(lia)).
  pose proof (Z.mod_pos_bound b 60 ltac:(lia)).
  assert (0 <= a / 60) by (apply Z.div_pos; lia).
  assert (0 <= b / 60) by (apply Z.div_pos; lia).
  apply digit_char_inj in H1; [|apply Z.div_pos; lia..].
  apply digit_char_inj in H2; [|apply Z.mod_pos_bound; lia..].
  apply digit_char_inj in H3; [|apply Z.div_pos; lia..].
  apply digit_char_inj in H4; [|apply Z.mod_pos_bound; lia..].
  pose proof (Z.div_mod (a / 60) 10 ltac:(lia)).
  pose proof (Z.div_mod (b / 60) 10 ltac:(lia)).
  pose proof (Z.div_mod (a mod 60) 10 ltac:(lia)).
  pose proof (Z.div_mod (b mod 60) 10 ltac:(lia)).
  pose proof (Z.div_mod a 60 ltac:(lia)).
  pose proof (Z.div_mod b 60 ltac:(lia)).
  lia.
Qed.

Lemma formatTime_injective_witness : formatTime 59 ≠ formatTime 60.
Proof.
  intros H. apply (formatTime_injective 59 60) in H; [discriminate | lia | lia].
Defined.

(** ** More on the timer *)

Lemma run_cons (s : state) (a : action) (l : list action) :
  run s (a :: l) = run (step s a) l.
Proof. reflexivity. Qed.

Lemma step_running_has_time (s : state) (a : action) :
  (running s = true -> 1 <= secondsLeft s) ->
  running (step s a) = true -> 1 <= secondsLeft (step s a).
Proof.
  intros Hinv. destruct a; cbn [step]; try exact Hinv.
  - unfold handleTaskClick. destruct (is_active s i); fields; discriminate.
  - unfold handleStart. destruct (Z.ltb_spec 0 (secondsLeft s)); fields.
    + intros _. lia.
    + exact Hinv.
  - unfold handlePause. fields. discriminate.
  - unfold tick. destruct (Z.leb_spec (secondsLeft s) 1); fields.
    + discriminate.
    + intros _. lia.
Qed.

Lemma run_running_has_time (s : state) (l : list action) :
  (running s = true -> 1 <= secondsLeft s) ->
  running (run s l) = true -> 1 <= secondsLeft (run s l).
Proof.
  intros Hinv. induction l as [|a l IH] using rev_ind.
  - exact Hinv.
  - rewrite run_snoc. apply step_running_has_time, IH.
Qed.

(** X4: along every run from the first render, a running timer has at
    least one second left (and at most 1500); so a timer that shows
    zero is stopped. *)
Theorem running_has_time (l : list action) :
  running (run initial l) = true -> 1 <= secondsLeft (run initial l) <= 1500.
Proof.
  intros Hrun. split; [|apply run_seconds_bounds].
  apply run_running_has_time; [discriminate | exact Hrun].
Qed.

Lemma running_has_time_witness :
  1 <= secondsLeft (run initial [TaskClick 1; Start; Tick; Tick]) <= 1500.
Proof. apply (running_has_time [TaskClick 1; Start; Tick; Tick]). reflexivity. Defined.

Lemma step_seconds_clamped (s : state) (a : action) :
  0 <= secondsLeft s -> is_click a = false ->
  secondsLeft (step s a)
  = if is_tick a then Z.max 0 (secondsLeft s - 1) else secondsLeft s.
Proof.
  intros Hk Hclick. destruct a; cbn [step is_tick]; try reflexivity.
  - discriminate.
  - unfold handleStart. destruct (0 <? secondsLeft s); reflexivity.
  - unfold tick. destruct (Z.leb_spec (secondsLeft s) 1); fields; lia.
Qed.

(** X5: without a click on a card, the remaining time after a list of
    actions is the time before minus one second for each tick, and
    zero when there were more ticks than seconds; pauses, restarts,
    edits and focus changes do not count. *)
Theorem seconds_after_ticks (s : state) (l : list action) :
  0 <= secondsLeft s -> no_click l ->
  secondsLeft (run s l) = Z.max 0 (secondsLeft s - Z.of_nat (ticks l)).
Proof.
  revert s. induction l as [|a l IH]; intros s Hk Hno.
  - cbn. lia.
  - apply Forall_cons in Hno as [Ha Hno]. rewrite run_cons.
    pose proof (step_seconds_clamped s a Hk Ha) as Hstep.
    rewrite IH; [|destruct (is_tick a); lia | exact Hno].
    rewrite Hstep. unfold ticks. cbn [List.filter].
    destruct (is_tick a); cbn [length]; lia.
Qed.

Lemma seconds_after_ticks_witness :
  secondsLeft (run (handleTaskClick 3 initial)
                   [Start; Tick; Tick; Pause; NameChange 3 (js "a"); Start; Tick])
  = 1497.
Proof.
  rewrite (seconds_after_ticks (handleTaskClick 3 initial)).
  - reflexivity.
  - vm_compute. discriminate.
  - repeat constructor.
Defined.

Lemma step_expired (s : state) (a : action) :
  secondsLeft s = 0 -> running s = false -> is_click a = false ->
  session (step s a) = session s.
Proof.
  intros Hk Hrun Hclick. destruct a; cbn [step]; try reflexivity.
  - discriminate.
  - unfold handleStart. rewrite Hk. reflexivity.
  - unfold handlePause. fields. rewrite Hrun. reflexivity.
  - unfold tick. rewrite Hk. fields. rewrite Hk, Hrun. reflexivity.
Qed.

(** X6: once the timer has expired (zero seconds, stopped), nothing but
    a click on a card changes the selection, the remaining time or the
    running flag: not [start], not [pause], not a late tick. *)
Theorem expired_until_click (s : state) (l : list action) :
  secondsLeft s = 0 -> running s = false -> no_click l ->
  session (run s l) = session s.
Proof.
  revert s. induction l as [|a l IH]; intros s Hk Hrun Hno; [reflexivity|].
  apply Forall_cons in Hno as [Ha Hno]. rewrite run_cons.
  pose proof (step_expired s a Hk Hrun Ha) as Hstep.
  unfold session in Hstep. injection Hstep as Hact Hsec Hr.
  rewrite IH; [|congruence | congruence | exact Hno].
  unfold session. congruence.
Qed.

Lemma expired_until_click_witness :
  let s := setSecondsLeft (fun _ => 0) (handleTaskClick 2 initial) in
  session (run s [Start; Tick; Pause; Start; ToggleRGA 2]) = (Some 2, 0, false).
Proof.
  intros s.
  rewrite (expired_until_click s); [reflexivity | reflexivity | reflexivity |].
  repeat constructor.
Defined.

(** X7: pausing a running timer and starting it again gives back the
    very state it was in, when time is left; starting a stopped timer
    and pausing it gives back the state as well. *)
Theorem pause_resume (s : state) :
  (running s = true -> 0 < secondsLeft s -> handleStart (handlePause s) = s) ∧
  (running s = false -> handlePause (handleStart s) = s).
Proof.
  split.
  - intros Hrun Hpos. unfold handleStart, handlePause. fields.
    rewrite (proj2 (Z.ltb_lt _ _) Hpos). destruct s. fields. congruence.
  - intros Hrun. unfold handleStart, handlePause.
    destruct (0 <? secondsLeft s); destruct s; fields; congruence.
Qed.

Lemma pause_resume_witness :
  let s := tick (handleStart (handleTaskClick 1 initial)) in
  handleStart (handlePause s) = s ∧
  handlePause (handleStart initial) = initial.
Proof.
  intros s. split.
  - apply (pause_resume s); reflexivity.
  - apply (pause_resume initial). reflexivity.
Defined.

(** ** What depends on what *)

Lemma step_session_ext (s s' : state) (a : action) :
  session s = session s' -> session (step s a) = session (step s' a).
Proof.
  unfold session. intros [= Hact Hsec Hrun].
  destruct a; cbn [step];
    unfold handleTaskClick, handleNameChange, toggleRGA, handleStart,
      handlePause, tick, handleInputFocus, handleInputBlur, is_active;
    rewrite ?Hact, ?Hsec.
  - destruct (activeId s') as [x|]; [destruct (x =? i)|]; reflexivity.
  - fields. congruence.
  - fields. congruence.
  - destruct (0 <? secondsLeft s'); fields; congruence.
  - fields. congruence.
  - destruct (secondsLeft s' <=? 1); fields; congruence.
  - fields. congruence.
  - fields. congruence.
Qed.

Lemma step_session_frame (s : state) (a : action) :
  timer_action a = false -> session (step s a) = session s.
Proof. destruct a; try discriminate; reflexivity. Qed.

Lemma step_tasks_ext (s s' : state) (a : action) :
  tasks s = tasks s' -> tasks (step s a) = tasks (step s' a).
Proof.
  intros H. destruct a; cbn [step].
  - unfold handleTaskClick.
    destruct (is_active s i), (is_active s' i); exact H.
  - unfold handleNameChange. fields. congruence.
  - unfold toggleRGA. fields. congruence.
  - unfold handleStart.
    destruct (0 <? secondsLeft s), (0 <? secondsLeft s'); exact H.
  - exact H.
  - unfold tick.
    destruct (secondsLeft s <=? 1), (secondsLeft s' <=? 1); exact H.
  - exact H.
  - exact H.
Qed.

Lemma step_tasks_frame (s : state) (a : action) :
  edit_action a = false -> tasks (step s a) = tasks s.
Proof.
  destruct a; try discriminate; intros _; cbn [step]; try reflexivity.
  - unfold handleTaskClick. destruct (is_active s i); reflexivity.
  - unfold handleStart. destruct (0 <? secondsLeft s); reflexivity.
  - unfold tick. destruct (secondsLeft s <=? 1); reflexivity.
Qed.

Lemma run_session_ext (l : list action) :
  ∀ s s', session s = session s' ->
          session (run s l) = session (run s' (List.filter timer_action l)).
Proof.
  induction l as [|a l IH]; intros s s' H; [exact H|].
  rewrite run_cons. cbn [List.filter].
  destruct (timer_action a) eqn:Ha.
  - rewrite run_cons. apply IH, step_session_ext, H.
  - apply IH. rewrite step_session_frame by exact Ha. exact H.
Qed.

Lemma run_tasks_ext (l : list action) :
  ∀ s s', tasks s = tasks s' ->
          tasks (run s l) = tasks (run s' (List.filter edit_action l)).
Proof.
  induction l as [|a l IH]; intros s s' H; [exact H|].
  rewrite run_cons. cbn [List.filter].
  destruct (edit_action a) eqn:Ha.
  - rewrite run_cons. apply IH, step_tasks_ext, H.
  - apply IH. rewrite step_tasks_frame by exact Ha. exact H.
Qed.

Lemma run_hydrated (s : state) (l : list action) :
  hydrated (run s l) = hydrated s.
Proof.
  revert s. induction l as [|a l IH]; intros s; [reflexivity|].
  rewrite run_cons, IH. destruct a; cbn [step]; try reflexivity.
  - unfold handleTaskClick. destruct (is_active s i); reflexivity.
  - unfold handleStart. destruct (0 <? secondsLeft s); reflexivity.
  - unfold tick. destruct (secondsLeft s <=? 1); reflexivity.
Qed.

(** X8: the timer and the task store do not influence each other.  The
    selection, remaining time and running flag after a list of actions
    are those after its clicks, starts, pauses and ticks alone; the
    tasks are those after its name edits and toggles alone; and no
    action changes [hydrated]. *)
Theorem timer_and_tasks_independent (s : state) (l : list action) :
  session (run s l) = session (run s (List.filter timer_action l)) ∧
  tasks (run s l) = tasks (run s (List.filter edit_action l)) ∧
  hydrated (run s l) = hydrated s.
Proof.
  repeat apply conj.
  - apply run_session_ext. reflexivity.
  - apply run_tasks_ext. reflexivity.
  - apply run_hydrated.
Qed.

(** ** More on the task store *)

Lemma rename_rename (i : Z) (v w : jsstring) (t : Task) :
  rename i v (rename i w t) = rename i v t.
Proof.
  unfold rename. destruct (id t =? i) eqn:E; cbn [id name isRGA]; rewrite E;
    reflexivity.
Qed.

Lemma rename_comm (i j : Z) (v w : jsstring) (t : Task) :
  i ≠ j -> rename i v (rename j w t) = rename j w (rename i v t).
Proof.
  intros Hne. unfold rename.
  destruct (Z.eqb_spec (id t) i) as [Hi|Hi], (Z.eqb_spec (id t) j) as [Hj|Hj];
    cbn [id name isRGA];
    rewrite ?(proj2 (Z.eqb_eq _ _) Hi), ?(proj2 (Z.eqb_neq _ _) Hi),
      ?(proj2 (Z.eqb_eq _ _) Hj), ?(proj2 (Z.eqb_neq _ _) Hj);
    try reflexivity.
  congruence.
Qed.

Lemma rename_flip (i j : Z) (v : jsstring) (t : Task) :
  rename i v (flip j t) = flip j (rename i v t).
Proof.
  unfold rename, flip.
  destruct (id t =? i) eqn:Ei, (id t =? j) eqn:Ej; cbn [id name isRGA];
    rewrite ?Ei, ?Ej; reflexivity.
Qed.

Lemma flip_comm (i j : Z) (t : Task) :
  flip i (flip j t) = flip j (flip i t).
Proof.
  unfold flip.
  destruct (id t =? i) eqn:Ei, (id t =? j) eqn:Ej; cbn [id name isRGA];
    rewrite ?Ei, ?Ej; reflexivity.
Qed.

Lemma setTasks_map2 (f g h k : Task -> Task) (s : state) :
  (∀ t, f (g t) = h (k t)) ->
  setTasks (map f) (setTasks (map g) s) = setTasks (map h) (setTasks (map k) s).
Proof.
  intros H. unfold setTasks. cbn [tasks hydrated activeId secondsLeft running inputFocused].
  f_equal. rewrite !map_map. apply map_ext. exact H.
Qed.

Lemma setTasks_map1 (f g h : Task -> Task) (s : state) :
  (∀ t, f (g t) = h t) ->
  setTasks (map f) (setTasks (map g) s) = setTasks (map h) s.
Proof.
  intros H. unfold setTasks. cbn [tasks hydrated activeId secondsLeft running inputFocused].
  f_equal. rewrite !map_map. apply map_ext. exact H.
Qed.

(** X9: how the two mutators compose, on every state.  Editing the
    same id twice leaves the last value; edits of two different ids can
    be swapped; an edit and a toggle can be swapped, on the same id or
    not; two toggles can be swapped. *)
Theorem edits_compose (s : state) (i j : Z) (v w : jsstring) :
  handleNameChange i v (handleNameChange i w s) = handleNameChange i v s ∧
  (i ≠ j -> handleNameChange i v (handleNameChange j w s)
            = handleNameChange j w (handleNameChange i v s)) ∧
  handleNameChange i v (toggleRGA j s) = toggleRGA j (handleNameChange i v s) ∧
  toggleRGA i (toggleRGA j s) = toggleRGA j (toggleRGA i s).
Proof.
  unfold handleNameChange, toggleRGA. repeat apply conj.
  - apply setTasks_map1. apply rename_rename.
  - intros Hne. apply setTasks_map2. intros t. apply rename_comm, Hne.
  - apply setTasks_map2. intros t. apply rename_flip.
  - apply setTasks_map2. intros t. apply flip_comm.
Qed.

Lemma edits_compose_witness :
  handleNameChange 1 (js "a") (handleNameChange 2 (js "b") initial)
  = handleNameChange 2 (js "b") (handleNameChange 1 (js "a") initial).
Proof.
  destruct (edits_compose initial 1 2 (js "a") (js "b")) as (_ & H & _).
  apply H. discriminate.
Defined.

Lemma lookup_map {A B} (f : A -> B) (l : list A) (k : nat) :
  map f l !! k = option_map f (l !! k).
Proof.
  revert k. induction l as [|x l IH]; intros [|k]; cbn; try reflexivity.
  apply IH.
Qed.

Lemma typed_name_snoc (i : Z) (l : list action) (a : action) :
  typed_name i (l ++ [a])
  = match a with
    | NameChange j value => if Z.eqb i j then value else typed_name i l
    | _ => typed_name i l
    end.
Proof. unfold typed_name. rewrite fold_left_app. reflexivity. Qed.

Lemma toggled_snoc (i : Z) (l : list action) (a : action) :
  toggled i (l ++ [a])
  = match a with
    | ToggleRGA j => if Z.eqb i j then negb (toggled i l) else toggled i l
    | _ => toggled i l
    end.
Proof. unfold toggled. rewrite fold_left_app. reflexivity. Qed.

(** X10: what the store holds after any list of actions on the first
    render.  The slot of each id from 1 to 6 carries that id, the value
    of the last name edit for it (the empty name when there was none),
    and a flag that is on exactly when it was toggled an odd number of
    times. *)
Theorem store_contents (l : list action) (i : Z) :
  1 <= i <= 6 ->
  tasks (run initial l) !! Z.to_nat (i - 1)
  = Some {| id := i; name := typed_name i l; isRGA := toggled i l |}.
Proof.
  intros Hi. induction l as [|a l IH] using rev_ind.
  - assert (Hcases : i = 1 ∨ i = 2 ∨ i = 3 ∨ i = 4 ∨ i = 5 ∨ i = 6) by lia.
    destruct Hcases as [->|[->|[->|[->|[->| ->]]]]]; reflexivity.
  - rewrite run_snoc, typed_name_snoc, toggled_snoc.
    destruct a; cbn [step].
    + unfold handleTaskClick. destruct (is_active _ _); exact IH.
    + unfold handleNameChange. fields. rewrite lookup_map, IH.
      cbn [option_map]. unfold rename. cbn [id name isRGA].
      destruct (i =? i0); reflexivity.
    + unfold toggleRGA. fields. rewrite lookup_map, IH.
      cbn [option_map]. unfold flip. cbn [id name isRGA].
      destruct (i =? i0); reflexivity.
    + unfold handleStart. destruct (0 <? _); exact IH.
    + exact IH.
    + unfold tick. destruct (_ <=? 1); exact IH.
    + exact IH.
    + exact IH.
Qed.

Lemma store_contents_witness :
  tasks (run initial [NameChange 3 (js "draft"); ToggleRGA 3; TaskClick 3;
                      NameChange 3 (js "Write report"); ToggleRGA 3;
                      ToggleRGA 3]) !! 2%nat
  = Some {| id := 3; name := js "Write report"; isRGA := true |}.
Proof.
  apply (store_contents
           [NameChange 3 (js "draft"); ToggleRGA 3; TaskClick 3;
            NameChange 3 (js "Write report"); ToggleRGA 3; ToggleRGA 3] 3).
  lia.
Defined.

(** ** More on loading and persisting *)


(** X11: whatever the storage holds, and whether or not it can be read,
    [loadTasks] returns an array of exactly six elements: the default
    tasks, or the array that the stored text parses to. *)
Theorem loadTasks_six_elements (b : browser) :
  ∃ items,
    loadTasks b = Normal (JArr items) ∧ length items = 6%nat ∧
    (JArr items = tasks_val createDefaultTasks ∨
     (storage_ok b = true ∧
      ∃ raw, entries b !! STORAGE_KEY = Some raw ∧
             JSON_parse raw = Some (JArr items))).
Proof.
  unfold loadTasks, loadTasks_body, getItem, storage_ok.
  destruct (has_window b); cbn [negb andb];
    [|eexists; repeat split; left; reflexivity].
  destruct (storage_usable b); cbn [mbind completion_bind try_catch];
    [|eexists; repeat split; left; reflexivity].
  destruct (entries b !! STORAGE_KEY) as [[|c raw]|] eqn:Hraw; cbn [truthy];
    try (eexists; repeat split; left; reflexivity).
  unfold JSON_parse_call.
  destruct (JSON_parse (c :: raw)) as [parsed|] eqn:Hparse;
    cbn [mbind completion_bind];
    [|eexists; repeat split; left; reflexivity].
  destruct (is_array_of_six parsed) eqn:Hsix;
    [|eexists; repeat split; left; reflexivity].
  destruct parsed; try discriminate.
  cbn [is_array_of_six] in Hsix. apply Nat.eqb_eq in Hsix.
  exists items. split; [reflexivity|]. split; [exact Hsix|].
  right. split; [reflexivity|]. exists (c :: raw). split; [reflexivity | exact Hparse].
Qed.

(** X12: nothing is written before hydration.  Along every run from
    the first render the persist effect leaves the browser as it is,
    so the default tasks of the first render never overwrite what is
    stored; and it does not throw, even on a storage that cannot be
    used. *)
Theorem persist_waits_for_hydration (l : list action) (b : browser) :
  persist (run initial l) b = Normal b.
Proof. unfold persist. rewrite run_hydrated. reflexivity. Qed.

Lemma load_after_persist (s : state) (b b' : browser) :
  six_slots (tasks s) -> hydrated s = true -> persist s b = Normal b' ->
  storage_ok b' = true ∧
  entries b' !! STORAGE_KEY = Some (JSON_stringify (tasks_val (tasks s))) ∧
  loadTasks b' = Normal (tasks_val (tasks s)).
Proof.
  intros Hsix Hhyd Hpersist.
  pose proof (TaskFacts.parse_stringify_tasks (tasks s)
                (TaskFacts.six_slots_digit_ids _ Hsix)) as Hparse.
  unfold persist, setItem in Hpersist. rewrite Hhyd in Hpersist.
  set (text := JSON_stringify (tasks_val (tasks s))) in *.
  destruct (storage_ok b) eqn:Hok; [|discriminate].
  assert (Hb' : b' = {| has_window := has_window b;
                        storage_usable := storage_usable b;
                        entries := <[STORAGE_KEY := text]> (entries b) |})
    by congruence.
  clear Hpersist. subst b'.
  assert (Hstored : <[STORAGE_KEY := text]> (entries b) !! STORAGE_KEY = Some text)
    by apply lookup_insert_eq.
  repeat apply conj.
  - exact Hok.
  - exact Hstored.
  - apply (loadTasks_verbatim _ text).
    + exact Hok.
    + exact Hstored.
    + exact Hparse.
    + rewrite length_map. apply six_slots_length, Hsix.
Qed.

Lemma persist_writes (s : state) (b : browser) :
  hydrated s = true -> storage_ok b = true ->
  persist s b
  = Normal {| has_window := has_window b; storage_usable := storage_usable b;
              entries := <[STORAGE_KEY := JSON_stringify (tasks_val (tasks s))]>
                           (entries b) |}.
Proof. intros Hhyd Hok. unfold persist, setItem. rewrite Hhyd, Hok. reflexivity. Qed.

Lemma mount_loaded (b : browser) (s0 : state) (ts : list Task) :
  loadTasks b = Normal (tasks_val ts) ->
  mount b s0 = Some (setHydrated true (setTasks (fun _ => ts) s0)).
Proof.
  intros Hload. unfold mount. rewrite Hload, TaskFacts.as_tasks_val. reflexivity.
Qed.



(** X14: loading what was persisted and persisting it again changes
    nothing.  When the persist effect has written six tasks of ids 1
    to 6, a component mounted on that storage gets those tasks, and
    its own persist effect leaves the browser exactly as it found
    it. *)
Theorem reload_then_persist (s s0 : state) (b b1 : browser) :
  six_slots (tasks s) -> hydrated s = true -> persist s b = Normal b1 ->
  ∃ s1, mount b1 s0 = Some s1 ∧ tasks s1 = tasks s ∧
        persist s1 b1 = Normal b1.
Proof.
  intros Hsix Hhyd Hpersist.
  destruct (load_after_persist _ _ _ Hsix Hhyd Hpersist) as (Hok & Hstored & Hload).
  eexists. repeat apply conj.
  - apply mount_loaded, Hload.
  - reflexivity.
  - rewrite persist_writes by (reflexivity || exact Hok).
    fields. rewrite insert_id by exact Hstored.
    destruct b1. reflexivity.
Qed.

Lemma reload_then_persist_witness :
  let s := setHydrated true (toggleRGA 4 initial) in
  let b1 := {| has_window := true; storage_usable := true;
               entries := <[STORAGE_KEY := JSON_stringify (tasks_val (tasks s))]>
                            (entries (browser_with [])) |} in
  ∃ s1, mount b1 initial = Some s1 ∧ tasks s1 = tasks s ∧
        persist s1 b1 = Normal b1.
Proof.
  intros s b1.
  apply (reload_then_persist s initial (browser_with [])); reflexivity.
Defined.



(** ** The interval and its owner *)

Lemma ui_clearTimer (c : component) : ui (clearTimer c) = ui c.
Proof. unfold clearTimer. destruct (intervalRef c); reflexivity. Qed.

Lemma ui_timer_effect (c : component) : ui (timer_effect c) = ui c.
Proof.
  unfold timer_effect. destruct (negb (running (ui c))); cbn [ui].
  - apply ui_clearTimer.
  - reflexivity.
Qed.

Lemma ui_commit (r : bool) (c : component) : ui (commit r c) = ui c.
Proof.
  unfold commit. destruct (Bool.eqb r (running (ui c))); [reflexivity|].
  rewrite ui_timer_effect. destruct (cleanup_due c); [apply ui_clearTimer | reflexivity].
Qed.

Lemma ui_interval_callback (c : component) : ui (interval_callback c) = tick (ui c).
Proof.
  unfold interval_callback, set_ui. cbn [ui].
  destruct (secondsLeft (ui c) <=? 1); [rewrite ui_clearTimer|]; reflexivity.
Qed.

(** The state after an event is the state after at most one action. *)
Lemma ui_cstep (c : component) (e : event) :
  ui (cstep c e) = ui c ∨ ∃ a, ui (cstep c e) = step (ui c) a.
Proof.
  destruct e as [g|i]; cbn [cstep].
  - right. exists (gesture_action g). rewrite ui_commit. reflexivity.
  - destruct (bool_decide (i ∈ live (timers c))); [|left; reflexivity].
    right. exists Tick. rewrite ui_commit, ui_interval_callback. reflexivity.
Qed.

Lemma clearTimer_idle (c : component) :
  intervalRef c = None -> clearTimer c = c.
Proof. intros H. unfold clearTimer. rewrite H. reflexivity. Qed.

Lemma timer_effect_owned (c : component) :
  intervalRef c = None -> live (timers c) = ∅ -> timer_owned (timer_effect c).
Proof.
  intros Href Hlive. unfold timer_owned, timer_effect.
  destruct (running (ui c)) eqn:Hrun; cbn [negb].
  - cbn [setInterval ui intervalRef timers cleanup_due live]. rewrite Hrun.
    split; [reflexivity|]. exists (fresh (timers c)). split; [reflexivity|].
    rewrite Hlive. apply (right_id_L ∅ (∪)).
  - unfold clearTimer. rewrite Href.
    cbn [ui intervalRef timers cleanup_due]. rewrite Hrun. auto.
Qed.

(** A render that changed nothing outside the state keeps the timer
    owned once its effects have run. *)
Lemma commit_owned (c0 c1 : component) :
  timer_owned c0 ->
  intervalRef c1 = intervalRef c0 -> timers c1 = timers c0 ->
  cleanup_due c1 = cleanup_due c0 ->
  timer_owned (commit (running (ui c0)) c1).
Proof.
  intros [Hdue Hown] Href Htim Hcl. unfold commit.
  destruct (running (ui c0)) eqn:Hr0, (running (ui c1)) eqn:Hr1; cbn [Bool.eqb].
  - unfold timer_owned. rewrite Hr1, Hcl, Href, Htim. auto.
  - rewrite Hcl, Hdue. destruct Hown as (i & Hi & Hlive).
    apply timer_effect_owned.
    + unfold clearTimer. rewrite Href, Hi. reflexivity.
    + unfold clearTimer. rewrite Href, Hi. cbn [timers clearInterval live].
      rewrite Htim, Hlive. apply difference_diag_L.
  - rewrite Hcl, Hdue. destruct Hown as (Hnone & Hlive).
    apply timer_effect_owned; congruence.
  - unfold timer_owned. rewrite Hr1, Hcl, Href, Htim. auto.
Qed.

Lemma cstep_owned (c : component) (e : event) :
  timer_owned c -> timer_owned (cstep c e).
Proof.
  intros Hown. destruct e as [g|i]; cbn [cstep].
  - apply commit_owned; [exact Hown | reflexivity..].
  - destruct (bool_decide (i ∈ live (timers c))) eqn:Hfire; [|exact Hown].
    unfold interval_callback.
    destruct (secondsLeft (ui c) <=? 1) eqn:Hend.
    + destruct Hown as [Hdue Hown].
      destruct (running (ui c)) eqn:Hrun.
      * destruct Hown as (j & Hj & Hlive).
        set (c2 := set_ui tick (clearTimer c)).
        assert (Href : intervalRef c2 = None)
          by (unfold c2, set_ui, clearTimer; rewrite Hj; reflexivity).
        assert (Hnone : live (timers c2) = ∅).
        { unfold c2, set_ui, clearTimer. rewrite Hj.
          cbn [timers clearInterval live]. rewrite Hlive.
          apply difference_diag_L. }
        assert (Hstop : running (ui c2) = false).
        { unfold c2, set_ui. cbn [ui]. rewrite ui_clearTimer.
          unfold tick. rewrite Hend. reflexivity. }
        unfold commit. rewrite Hstop. cbn [Bool.eqb].
        rewrite (clearTimer_idle c2 Href).
        destruct (cleanup_due c2); apply timer_effect_owned; assumption.
      * destruct Hown as (_ & Hlive). rewrite Hlive in Hfire.
        apply bool_decide_eq_true in Hfire. set_solver.
    + apply (commit_owned c); [exact Hown | reflexivity..].
Qed.

Lemma mounted_owned (s0 : state) (p : positive) : timer_owned (mounted s0 p).
Proof. unfold mounted. apply timer_effect_owned; reflexivity. Qed.

Lemma crun_snoc (c : component) (l : list event) (e : event) :
  crun c (l ++ [e]) = cstep (crun c l) e.
Proof. unfold crun. rewrite fold_left_app. reflexivity. Qed.

Lemma crun_owned (c : component) (l : list event) :
  timer_owned c -> timer_owned (crun c l).
Proof.
  intros Hown. induction l as [|e l IH] using rev_ind; [exact Hown|].
  rewrite crun_snoc. apply cstep_owned, IH.
Qed.

(** X16: the interval is owned.  After any events on a mounted
    component, while the timer runs there is exactly one live interval
    and [intervalRef] holds its id; while it does not run there is no
    live interval and [intervalRef] is empty.  Two intervals never tick
    at once and none is left behind. *)
Theorem interval_owned (s0 : state) (p : positive) (l : list event) :
  let c := crun (mounted s0 p) l in
  if running (ui c)
  then ∃ i, intervalRef c = Some i ∧ live (timers c) = {[i]}
  else intervalRef c = None ∧ live (timers c) = ∅.
Proof.
  intros c. destruct (crun_owned (mounted s0 p) l (mounted_owned s0 p)) as [_ H].
  exact H.
Qed.

Lemma fire_idle (c : component) (i : positive) :
  timer_owned c ->
  running (ui c) = false ∨ intervalRef c ≠ Some i ->
  cstep c (Fire i) = c.
Proof.
  intros [_ Hown] Hidle. cbn [cstep].
  destruct (bool_decide (i ∈ live (timers c))) eqn:Hfire; [|reflexivity].
  exfalso. apply bool_decide_eq_true in Hfire.
  destruct (running (ui c)).
  - destruct Hown as (j & Hj & Hlive). rewrite Hlive in Hfire.
    apply elem_of_singleton in Hfire. subst j.
    destruct Hidle as [Hidle|Hidle]; [discriminate | contradiction].
  - destruct Hown as (_ & Hlive). rewrite Hlive in Hfire.
    apply elem_of_empty in Hfire. exact Hfire.
Qed.

(** X17: no stale tick.  On a mounted component, after any events, the
    firing of an interval changes nothing at all when the timer is not
    running, and nothing when the interval is not the one
    [intervalRef] holds: an interval that was cleared by a pause, a
    click or the expiry does not tick again. *)
Theorem no_stale_tick (s0 : state) (p : positive) (l : list event) (i : positive) :
  let c := crun (mounted s0 p) l in
  (running (ui c) = false -> cstep c (Fire i) = c) ∧
  (intervalRef c ≠ Some i -> cstep c (Fire i) = c).
Proof.
  intros c.
  pose proof (crun_owned (mounted s0 p) l (mounted_owned s0 p)) as Hown.
  split; intros H; apply fire_idle; auto.
Qed.

Lemma no_stale_tick_witness :
  let c := crun (mounted initial 5)
                [User (ClickCard 2); User ClickStart; Fire 5; User ClickPause] in
  secondsLeft (ui c) = 1499 ∧ cstep c (Fire 5) = c.
Proof.
  intros c. split; [reflexivity|].
  destruct (no_stale_tick initial 5
              [User (ClickCard 2); User ClickStart; Fire 5; User ClickPause] 5)
    as [H _].
  apply H. reflexivity.
Defined.

Lemma crun_simulated (s0 : state) (p : positive) (l : list event) :
  ∃ acts, ui (crun (mounted s0 p) l) = run s0 acts ∧
          (length acts <= length l)%nat.
Proof.
  induction l as [|e l (acts & IH & Hlen)] using rev_ind.
  - exists []. split; [|reflexivity].
    unfold crun, mounted. cbn [fold_left]. apply ui_timer_effect.
  - rewrite crun_snoc, length_app. cbn [length].
    destruct (ui_cstep (crun (mounted s0 p) l) e) as [Hsame|(a & Hstep)].
    + exists acts. split; [congruence | lia].
    + exists (acts ++ [a]). rewrite run_snoc, length_app. cbn [length].
      split; [congruence | lia].
Qed.

(** X18: the component with its interval reaches only states of the
    action runs, with at most one action for each event.  So on a
    component mounted with the first render, after any gestures and
    firings, there are six tasks with ids 1 to 6, the remaining time is
    within 0 and 1500, and a running timer has at least one second
    left. *)
Theorem component_states (p : positive) (l : list event) :
  let c := crun (mounted initial p) l in
  (∃ acts, ui c = run initial acts ∧ (length acts <= length l)%nat) ∧
  six_slots (tasks (ui c)) ∧
  0 <= secondsLeft (ui c) <= 1500 ∧
  (running (ui c) = true -> 1 <= secondsLeft (ui c)).
Proof.
  intros c. destruct (crun_simulated initial p l) as (acts & Hacts & Hlen).
  subst c. split; [|split; [|split]].
  - exists acts. split; assumption.
  - rewrite Hacts. unfold six_slots. rewrite run_ids. reflexivity.
  - rewrite Hacts. apply run_seconds_bounds.
  - rewrite Hacts. apply run_running_has_time. discriminate.
Qed.

Lemma component_states_witness :
  1 <= secondsLeft (ui (crun (mounted initial 1)
                              [User (ClickCard 1); User ClickStart; Fire 1])).
Proof.
  destruct (component_states 1 [User (ClickCard 1); User ClickStart; Fire 1])
    as (_ & _ & _ & H).
  apply H. reflexivity.
Defined.

(** ** The screen *)

(** The panel of a state, when one is shown. *)
Lemma panels_unfold (s : state) :
  panels s
  = flat_map (fun t => if is_active s (id t)
                       then [ {| clock := formatTime (secondsLeft s);
                                 start_disabled := running s;
                                 pause_disabled := negb (running s) |} ]
                       else []) (tasks s).
Proof.
  unfold panels, render. cbn [cards].
  induction (tasks s) as [|t ts IH]; [reflexivity|].
  cbn [map flat_map]. rewrite <- IH. unfold render_card at 1.
  destruct (is_active s (id t)); reflexivity.
Qed.

Lemma panels_nonempty (s : state) :
  panels s ≠ [] <-> ∃ i, activeId s = Some i ∧ In i (map id (tasks s)).
Proof.
  rewrite panels_unfold. unfold is_active.
  destruct (activeId s) as [a|].
  - induction (tasks s) as [|t ts IH]; cbn [flat_map map In].
    + split; [congruence | intros (i & _ & [])].
    + destruct (Z.eqb_spec a (id t)) as [Heq|Hne].
      * split; [|discriminate]. intros _. exists a. split; [reflexivity|].
        left. congruence.
      * cbn [app]. rewrite IH. split.
        -- intros (i & Hi & Hin). exists i. split; [exact Hi | right; exact Hin].
        -- intros (i & Hi & [Hhead|Hin]); [congruence|].
           exists i. split; assumption.
  - split.
    + intros H. exfalso. apply H. clear H.
      induction (tasks s) as [|t ts IH]; [reflexivity | exact IH].
    + intros (i & Hi & _). discriminate.
Qed.

Lemma panels_six_slots (s : state) :
  six_slots (tasks s) ->
  panels s
  = match activeId s with
    | Some i =>
        if (1 <=? i) && (i <=? 6)
        then [ {| clock := formatTime (secondsLeft s);
                  start_disabled := running s;
                  pause_disabled := negb (running s) |} ]
        else []
    | None => []
    end.
Proof.
  intros Hsix. rewrite panels_unfold. unfold six_slots in Hsix.
  destruct (tasks s) as [|t1 [|t2 [|t3 [|t4 [|t5 [|t6 [|t7 ts]]]]]]];
    try discriminate.
  injection Hsix as H1 H2 H3 H4 H5 H6.
  unfold is_active. cbn [flat_map]. rewrite H1, H2, H3, H4, H5, H6.
  destruct (activeId s) as [a|]; [|reflexivity].
  destruct (Z.leb_spec 1 a) as [Hlo|Hlo]; cbn [andb];
    [destruct (Z.leb_spec a 6) as [Hhi|Hhi]|].
  - assert (Hcases : a = 1 ∨ a = 2 ∨ a = 3 ∨ a = 4 ∨ a = 5 ∨ a = 6) by lia.
    destruct Hcases as [->|[->|[->|[->|[->| ->]]]]]; reflexivity.
  - rewrite !(proj2 (Z.eqb_neq a _)) by lia. reflexivity.
  - rewrite !(proj2 (Z.eqb_neq a _)) by lia. reflexivity.
Qed.

Lemma run_six_slots (l : list action) : six_slots (tasks (run initial l)).
Proof. unfold six_slots. rewrite run_ids. reflexivity. Qed.

(** X19: what the screen shows of the timer along every run from the
    first render.  At most one panel is rendered; one is rendered
    exactly when the active id is one of 1 to 6; its clock is the five
    characters of the remaining time, and of its two buttons exactly
    one is disabled: Start while running, Pause while not. *)
Theorem screen_panel (l : list action) :
  let s := run initial l in
  (length (panels s) <= 1)%nat ∧
  (panels s ≠ [] <-> ∃ i, activeId s = Some i ∧ 1 <= i <= 6) ∧
  ∀ p, In p (panels s) ->
       clock p = formatTime (secondsLeft s) ∧ length (clock p) = 5%nat ∧
       start_disabled p = running s ∧ pause_disabled p = negb (running s).
Proof.
  intros s. subst s. rewrite (panels_six_slots _ (run_six_slots l)).
  pose proof (run_seconds_bounds l) as Hb.
  destruct (activeId (run initial l)) as [a|].
  - destruct (Z.leb_spec 1 a) as [Hlo|Hlo]; cbn [andb];
      [destruct (Z.leb_spec a 6) as [Hhi|Hhi]|].
    + split; [reflexivity|]. split.
      * split; [|discriminate]. intros _. exists a. split; [reflexivity | lia].
      * intros p [<-|[]]. cbn [clock start_disabled pause_disabled].
        repeat apply conj; try reflexivity.
        rewrite formatTime_digits by lia. reflexivity.
    + split; [cbn; lia|]. split; [|intros p []].
      split; [congruence|]. intros (i & [= <-] & Hi). lia.
    + split; [cbn; lia|]. split; [|intros p []].
      split; [congruence|]. intros (i & [= <-] & Hi). lia.
  - split; [cbn; lia|]. split; [|intros p []].
    split; [congruence|]. intros (i & Hi & _). discriminate.
Qed.

Lemma screen_panel_witness :
  let s := run initial [TaskClick 3; Start; Tick] in
  panels s ≠ [] ∧
  Forall (fun p => clock p = js "24:59" ∧ start_disabled p = true) (panels s).
Proof.
  intros s.
  destruct (screen_panel [TaskClick 3; Start; Tick]) as (_ & Hshown & Hpanel).
  split.
  - apply Hshown. exists 3. split; [reflexivity | lia].
  - apply Forall_forall. intros p Hp. apply list_elem_of_In in Hp.
    destruct (Hpanel p Hp) as (Hc & _ & Hs & _). split.
    + rewrite Hc. reflexivity.
    + rewrite Hs. reflexivity.
Defined.

(** X20: which buttons can be pressed along every run from the first
    render.  Start is offered exactly when a task from 1 to 6 is active
    and the timer is not running, whatever time is left, also at zero;
    Pause exactly when a task from 1 to 6 is active and the timer is
    running. *)
Theorem buttons_offered (l : list action) :
  let s := run initial l in
  (offered s ClickStart = true
   <-> (∃ i, activeId s = Some i ∧ 1 <= i <= 6) ∧ running s = false) ∧
  (offered s ClickPause = true
   <-> (∃ i, activeId s = Some i ∧ 1 <= i <= 6) ∧ running s = true).
Proof.
  intros s. subst s. unfold offered.
  rewrite (panels_six_slots _ (run_six_slots l)).
  destruct (activeId (run initial l)) as [a|].
  - destruct (Z.leb_spec 1 a) as [Hlo|Hlo]; cbn [andb];
      [destruct (Z.leb_spec a 6) as [Hhi|Hhi]|];
      cbn [existsb start_disabled pause_disabled orb].
    + destruct (running (run initial l)); cbn [negb]; split; split;
        try (intros [_ H]; discriminate); try discriminate;
        intros _; (split; [exists a; split; [reflexivity | lia] | reflexivity])
        || reflexivity.
    + split; split; try discriminate; intros [(i & [= <-] & Hi) _]; lia.
    + split; split; try discriminate; intros [(i & [= <-] & Hi) _]; lia.
  - cbn [existsb]. split; split; try discriminate;
      intros [(i & Hi & _) _]; discriminate.
Qed.

Lemma buttons_offered_witness :
  offered (run initial [TaskClick 2; Start; Tick]) ClickPause = true ∧
  offered (setSecondsLeft (fun _ => 0) (run initial [TaskClick 2])) ClickStart
  = true ∧
  offered (run initial []) ClickStart = false.
Proof.
  destruct (buttons_offered [TaskClick 2; Start; Tick]) as [_ Hpause].
  destruct (buttons_offered []) as [Hstart _].
  repeat apply conj.
  - apply Hpause. split; [exists 2; split; [reflexivity | lia] | reflexivity].
  - reflexivity.
  - apply not_true_is_false. intros E.
    apply Hstart in E as [(i & Hi & _) _]. discriminate.
Defined.

(** ** Through the screen *)

Lemma step_active_frame (s : state) (a : action) :
  is_click a = false -> has_active s -> has_active (step s a).
Proof.
  intros Hclick (i & Hi & Hin). exists i. rewrite step_ids.
  split; [|exact Hin].
  destruct a; cbn [step]; try exact Hi.
  - discriminate.
  - unfold handleStart. destruct (0 <? secondsLeft s); exact Hi.
  - unfold tick. destruct (secondsLeft s <=? 1); exact Hi.
Qed.

Lemma step_running_from (s : state) (a : action) :
  running (step s a) = true -> a = Start ∨ (is_click a = false ∧ running s = true).
Proof.
  destruct a; cbn [step]; auto.
  - unfold handleTaskClick. destruct (is_active s i); discriminate.
  - discriminate.
  - unfold tick. destruct (secondsLeft s <=? 1); [discriminate | auto].
Qed.

Lemma offered_start_active (s : state) :
  offered s ClickStart = true -> has_active s.
Proof.
  cbn [offered]. intros H. apply panels_nonempty.
  destruct (panels s); [discriminate | congruence].
Qed.

Lemma offered_pause (s : state) :
  running s = true -> panels s ≠ [] -> offered s ClickPause = true.
Proof.
  intros Hrun. cbn [offered]. rewrite panels_unfold.
  induction (tasks s) as [|t ts IH]; cbn [flat_map]; [congruence|].
  destruct (is_active s (id t)); cbn [app existsb pause_disabled].
  - rewrite Hrun. reflexivity.
  - exact IH.
Qed.

Lemma ui_step_active (c : component) (e : event) :
  (running (ui c) = true -> has_active (ui c)) ->
  running (ui (ui_step c e)) = true -> has_active (ui (ui_step c e)).
Proof.
  intros Hinv. destruct e as [g|i]; cbn [ui_step].
  - destruct (offered (ui c) g) eqn:Hoff; [|exact Hinv].
    cbn [cstep]. rewrite ui_commit. cbn [set_ui ui]. intros Hrun.
    destruct (step_running_from _ _ Hrun) as [Hstart|[Hclick Hwas]].
    + destruct g; try discriminate.
      apply step_active_frame; [reflexivity|].
      apply offered_start_active, Hoff.
    + apply step_active_frame; [exact Hclick | apply Hinv, Hwas].
  - cbn [cstep]. destruct (bool_decide (i ∈ live (timers c))); [|exact Hinv].
    rewrite ui_commit, ui_interval_callback. intros Hrun.
    change (tick (ui c)) with (step (ui c) Tick) in *.
    destruct (step_running_from _ _ Hrun) as [Hstart|[Hclick Hwas]];
      [discriminate|].
    apply step_active_frame; [reflexivity | apply Hinv, Hwas].
Qed.

Lemma ui_step_owned (c : component) (e : event) :
  timer_owned c -> timer_owned (ui_step c e).
Proof.
  intros Hown. destruct e as [g|i]; cbn [ui_step].
  - destruct (offered (ui c) g); [apply cstep_owned|]; exact Hown.
  - apply cstep_owned, Hown.
Qed.

Lemma ui_run_snoc (c : component) (l : list event) (e : event) :
  ui_run c (l ++ [e]) = ui_step (ui_run c l) e.
Proof. unfold ui_run. rewrite fold_left_app. reflexivity. Qed.

(** X21: through the screen the timer never runs without a task.  On
    a component mounted with a stopped timer, when gestures reach the
    handlers only through controls that are rendered and not disabled,
    then after any events a running timer has an active task that is
    one of the tasks, so its panel with the Pause button is on the
    screen; and the interval stays owned. *)
Theorem running_needs_active (s0 : state) (p : positive) (l : list event) :
  running s0 = false ->
  let c := ui_run (mounted s0 p) l in
  timer_owned c ∧
  (running (ui c) = true ->
     (∃ i, activeId (ui c) = Some i ∧ In i (map id (tasks (ui c)))) ∧
     offered (ui c) ClickPause = true).
Proof.
  intros Hstop c. subst c.
  assert (Hinv : timer_owned (ui_run (mounted s0 p) l) ∧
                 (running (ui (ui_run (mounted s0 p) l)) = true ->
                  has_active (ui (ui_run (mounted s0 p) l)))).
  { induction l as [|e l [IHown IHact]] using rev_ind.
    - split; [apply mounted_owned|].
      unfold ui_run, mounted. cbn [fold_left]. rewrite ui_timer_effect.
      cbn [ui]. congruence.
    - rewrite ui_run_snoc. split.
      + apply ui_step_owned, IHown.
      + apply ui_step_active, IHact. }
  destruct Hinv as [Hown Hact]. split; [exact Hown|].
  intros Hrun. split; [apply Hact, Hrun|].
  apply offered_pause; [exact Hrun|]. apply panels_nonempty, Hact, Hrun.
Qed.

Lemma running_needs_active_witness :
  let c := ui_run (mounted initial 1)
                  [User ClickStart; User (ClickCard 4); User ClickStart;
                   Fire 1; User (TypeName 4 (js "x"))] in
  activeId (ui c) = Some 4 ∧ running (ui c) = true ∧
  offered (ui c) ClickPause = true.
Proof.
  intros c.
  destruct (running_needs_active initial 1
              [User ClickStart; User (ClickCard 4); User ClickStart;
               Fire 1; User (TypeName 4 (js "x"))]) as [_ H]; [reflexivity|].
  destruct (H eq_refl) as [_ Hp].
  exact (conj eq_refl (conj eq_refl Hp)).
Defined.
